(** * OpenVpn: a shallow embedding of the OpenVPN process supervisor

    The definitions below follow the class [OpenVpn] of [src/lib/OpenVpn.ts]
    (the revision with [createAuthFile], [useAuthFile] and the guarded
    [disconnect]).  Methods become functions on an explicit session state;
    every assignment to [this.status], every [eventEmitter.emit] and every
    write to the child's input stream is recorded, in program order, in the
    [history] of the session, so that theorems can speak about what was
    emitted and when.

    Conventions.
    - A JavaScript string is a [string]: a sequence of code units below 256.
      All the patterns of the source are ASCII.
    - An optional field ([username?: string]) is an [option]; [truthy]
      is JavaScript truthiness.
    - Durations and clock readings are integers ([Z], milliseconds).
    - The operating system (process table, signals, clock, file system) is a
      [World] whose answers are scripted, so that a statement quantified over
      all worlds covers every behaviour of the primitives. *)

From Stdlib Require Import ZArith Ascii String List Bool Lia.
From stdpp Require Import base option list strings pretty relations gmap.
Import ListNotations.

Local Open Scope string_scope.
Local Open Scope Z_scope.

(** ** JavaScript strings *)

Module Js.

(** [s.startsWith(p)] *)
Fixpoint startsWith (p s : string) : bool :=
  match p with
  | EmptyString => true
  | String a p' =>
      match s with
      | EmptyString => false
      | String b s' => Ascii.eqb a b && startsWith p' s'
      end
  end.

(** [s.includes(p)]: [p] occurs in [s] as a contiguous substring. *)
Fixpoint includes (s p : string) : bool :=
  startsWith p s
  || match s with
     | EmptyString => false
     | String _ s' => includes s' p
     end.

Definition LF : ascii := ascii_of_nat 10.
Definition CR : ascii := ascii_of_nat 13.

(** The string ["\n"]. *)
Definition nl : string := String LF EmptyString.

(** White space and line terminators of ECMAScript among the code units
    below 256: TAB, LF, VT, FF, CR, SP and NBSP. *)
Definition isWhiteSpace (c : ascii) : bool :=
  let n := nat_of_ascii c in
  ((9 <=? n) && (n <=? 13) || (n =? 32) || (n =? 160))%nat.

Fixpoint trimStart (s : string) : string :=
  match s with
  | EmptyString => EmptyString
  | String c s' => if isWhiteSpace c then trimStart s' else s
  end.

Fixpoint trimEnd (s : string) : string :=
  match s with
  | EmptyString => EmptyString
  | String c s' =>
      match trimEnd s' with
      | EmptyString => if isWhiteSpace c then EmptyString else String c EmptyString
      | t => String c t
      end
  end.

(** [s.trim()] *)
Definition trim (s : string) : string := trimEnd (trimStart s).

(** Truthiness of a string: only the empty string is falsy. *)
Definition truthyStr (s : string) : bool :=
  match s with EmptyString => false | String _ _ => true end.

(** Truthiness of an optional string: [undefined] and [""] are falsy. *)
Definition truthy (o : option string) : bool :=
  match o with Some s => truthyStr s | None => false end.

(** A template-literal hole [`${x}`] for an optional string. *)
Definition show (o : option string) : string :=
  match o with Some s => s | None => "undefined" end.

Definition consHead (c : ascii) (ls : list string) : list string :=
  match ls with
  | [] => [String c EmptyString]
  | l :: ls' => String c l :: ls'
  end.

(** [s.split(/\r?\n/)]: the text is cut at every ["\n"], and a ["\r"]
    standing immediately before the ["\n"] belongs to the separator. *)
Fixpoint split (s : string) : list string :=
  match s with
  | EmptyString => [EmptyString]
  | String c s' =>
      if Ascii.eqb c LF then EmptyString :: split s'
      else
        match s' with
        | String c2 s'' =>
            if Ascii.eqb c CR && Ascii.eqb c2 LF
            then EmptyString :: split s''
            else consHead c (split s')
        | EmptyString => consHead c (split s')
        end
  end.

End Js.

(** ** Status and session *)

Inductive Status : Set :=
| connecting
| connected
| disconnecting
| disconnected
| reconnecting
| stopped
| error
| auth
| auth_username
| auth_password
| auth_success
| auth_failed.

#[global] Instance Status_eq_dec : EqDecision Status.
Proof. solve_decision. Defined.

Definition Status_eqb (a b : Status) : bool := bool_decide (a = b).

(** The text of a status, as a template literal prints it. *)
Definition Status_to_string (s : Status) : string :=
  match s with
  | connecting => "connecting"
  | connected => "connected"
  | disconnecting => "disconnecting"
  | disconnected => "disconnected"
  | reconnecting => "reconnecting"
  | stopped => "stopped"
  | error => "error"
  | auth => "auth"
  | auth_username => "auth_username"
  | auth_password => "auth_password"
  | auth_success => "auth_success"
  | auth_failed => "auth_failed"
  end.

(** A handle on a spawned child process. *)
Definition ChildProcess : Set := nat.

(** What a run of the session does that an observer can see, in order. *)
Inductive Action : Set :=
| SetStatus (s : Status)                       (* this.status = s *)
| EmitStatus (s : Status)                      (* emit('status', this.status) *)
| EmitLog (l : string)                         (* emit('log', l) *)
| StdinWrite (p : ChildProcess) (data : string)  (* process.stdin.write(data) *)
| Kill (p : ChildProcess).                     (* process.kill('SIGINT') *)

(** The promise returned by [connect]. *)
Inductive Promise : Set :=
| Pending
| Resolved
| Rejected (msg : string).

Record OpenVpn : Set := mkOpenVpn {
  configPath : string;
  username : option string;
  password : option string;
  authPath : option string;
  useAuthFile : bool;
  customFlags : list string;
  process : option ChildProcess;
  status : Status;
  tempDir : option string;
  isTempConfig : bool;
  (* eventEmitter: the listener that the latest connect() registered on
     'status', the promise it settles, and everything emitted so far.
     Listeners that a caller registers with on() are code of the caller
     and are not part of the session. *)
  statusListener : bool;
  connectPromise : Promise;
  history : list Action
}.

Definition with_status (s : Status) (o : OpenVpn) : OpenVpn :=
  mkOpenVpn (configPath o) (username o) (password o) (authPath o)
    (useAuthFile o) (customFlags o) (process o) s (tempDir o)
    (isTempConfig o) (statusListener o) (connectPromise o) (history o).

Definition with_history (h : list Action) (o : OpenVpn) : OpenVpn :=
  mkOpenVpn (configPath o) (username o) (password o) (authPath o)
    (useAuthFile o) (customFlags o) (process o) (status o) (tempDir o)
    (isTempConfig o) (statusListener o) (connectPromise o) h.

Definition with_process (p : option ChildProcess) (o : OpenVpn) : OpenVpn :=
  mkOpenVpn (configPath o) (username o) (password o) (authPath o)
    (useAuthFile o) (customFlags o) p (status o) (tempDir o)
    (isTempConfig o) (statusListener o) (connectPromise o) (history o).

Definition with_listener (b : bool) (o : OpenVpn) : OpenVpn :=
  mkOpenVpn (configPath o) (username o) (password o) (authPath o)
    (useAuthFile o) (customFlags o) (process o) (status o) (tempDir o)
    (isTempConfig o) b (connectPromise o) (history o).

Definition with_promise (p : Promise) (o : OpenVpn) : OpenVpn :=
  mkOpenVpn (configPath o) (username o) (password o) (authPath o)
    (useAuthFile o) (customFlags o) (process o) (status o) (tempDir o)
    (isTempConfig o) (statusListener o) p (history o).

Definition with_authPath (p : option string) (o : OpenVpn) : OpenVpn :=
  mkOpenVpn (configPath o) (username o) (password o) p
    (useAuthFile o) (customFlags o) (process o) (status o) (tempDir o)
    (isTempConfig o) (statusListener o) (connectPromise o) (history o).

Definition with_tempDir (d : option string) (b : bool) (o : OpenVpn) : OpenVpn :=
  mkOpenVpn (configPath o) (username o) (password o) (authPath o)
    (useAuthFile o) (customFlags o) (process o) (status o) d
    b (statusListener o) (connectPromise o) (history o).

(** The options object of the constructor. *)
Record Options : Set := mkOptions {
  opt_configPath : string;
  opt_username : option string;
  opt_password : option string;
  opt_authPath : option string;
  opt_useAuthFile : bool;
  opt_customFlags : list string
}.

(** [new OpenVpn(options)].  The constructor copies every option except
    [authPath], which the source leaves unset. *)
Definition new (o : Options) : OpenVpn :=
  mkOpenVpn (opt_configPath o) (opt_username o) (opt_password o) None
    (opt_useAuthFile o) (opt_customFlags o) None stopped None false
    false Pending [].

(** ** Emitting *)

Definition record (a : Action) (o : OpenVpn) : OpenVpn :=
  with_history (history o ++ [a]) o.

(** [this.status = s] *)
Definition set_status (s : Status) (o : OpenVpn) : OpenVpn :=
  record (SetStatus s) (with_status s o).

(** [resolve()] and [reject(e)] settle a promise once; later calls do
    nothing. *)
Definition resolve (o : OpenVpn) : OpenVpn :=
  match connectPromise o with
  | Pending => with_promise Resolved o
  | _ => o
  end.

Definition reject (msg : string) (o : OpenVpn) : OpenVpn :=
  match connectPromise o with
  | Pending => with_promise (Rejected msg) o
  | _ => o
  end.

(** The [statusListener] closure of [connect]. *)
Definition run_statusListener (s : Status) (o : OpenVpn) : OpenVpn :=
  if Status_eqb s connected then resolve (with_listener false o)
  else if Status_eqb s error || Status_eqb s auth_failed then
    reject ("Connection failed: " ++ Status_to_string s) (with_listener false o)
  else o.

(** [this.eventEmitter.emit('status', this.status)]: the payload is the
    field as it is read at the call; the listener of [connect], when
    registered, runs synchronously. *)
Definition emit_status (o : OpenVpn) : OpenVpn :=
  let o1 := record (EmitStatus (status o)) o in
  if statusListener o1 then run_statusListener (status o) o1 else o1.

(** [this.eventEmitter.emit('log', l)] *)
Definition emit_log (l : string) (o : OpenVpn) : OpenVpn :=
  record (EmitLog l) o.

(** [this.process?.stdin?.write(data)] *)
Definition stdin_write (data : string) (o : OpenVpn) : OpenVpn :=
  match process o with
  | Some p => record (StdinWrite p data) o
  | None => o
  end.

(** ** The auth responder, the classifier and the chunk handler *)

Inductive AuthType : Set := type_username | type_password.

Definition handleAuth (type : AuthType) (o : OpenVpn) : OpenVpn :=
  let o :=
    match type with
    | type_username =>
        if Js.truthy (username o)
        then stdin_write (Js.show (username o) ++ Js.nl) o
        else emit_status (set_status auth_failed o)
    | _ => o
    end in
  match type with
  | type_password =>
      if Js.truthy (password o)
      then stdin_write (Js.show (password o) ++ Js.nl) o
      else emit_status (set_status auth_failed o)
  | _ => o
  end.

Definition pat_push := "PUSH: Received control message".
Definition pat_init := "Initialization Sequence Completed".
Definition pat_exiting := "Exiting".
Definition pat_username := "Enter Auth Username:".
Definition pat_password := "Enter Auth Password:".
Definition pat_verification := "Verification Failed".
Definition pat_auth_failed := "AUTH_FAILED".
Definition pat_peer := "Peer Connection Initiated".
Definition pat_sigusr1 := "SIGUSR1[soft,ping-restart] received, process restarting".
Definition pat_arp := "Successful ARP Flush on interface".

Definition handleLog (line : string) (o : OpenVpn) : OpenVpn :=
  let o := emit_log line o in
  let o :=
    if (Js.includes line pat_push || Js.includes line pat_init)
       && negb (Status_eqb (status o) connected)
    then emit_status (set_status connected o) else o in
  let o :=
    if Js.includes line pat_exiting
    then emit_status (set_status disconnected o) else o in
  let o :=
    if Js.includes line pat_username
    then handleAuth type_username (emit_status (set_status auth_username o))
    else o in
  let o :=
    if Js.includes line pat_password
    then handleAuth type_password (emit_status (set_status auth_password o))
    else o in
  let o :=
    if Js.includes line pat_verification || Js.includes line pat_auth_failed
    then emit_status (set_status auth_failed o) else o in
  let o :=
    if Js.includes line pat_peer
    then emit_status (set_status auth_success o) else o in
  let o :=
    if Js.includes line pat_sigusr1
    then emit_status (set_status reconnecting o) else o in
  if Js.includes line pat_arp && Status_eqb (status o) reconnecting
  then emit_status (set_status connected o) else o.

(** [for (const line of lines) if (line.trim()) this.handleLog(line)] *)
Definition handleLines (lines : list string) (o : OpenVpn) : OpenVpn :=
  fold_left
    (fun o line => if Js.truthyStr (Js.trim line) then handleLog line o else o)
    lines o.

Definition handleChunk (chunk : string) (o : OpenVpn) : OpenVpn :=
  handleLines (Js.split chunk) o.

(** ** The process' events *)

(** What the child process delivers to the handlers that [connect]
    registers: a chunk of output (stdout or stderr), [close], or [error]. *)
Inductive ProcEvent : Set :=
| Data (chunk : string)
| Close
| Error (message : string).

(** [process.on('close', ...)] *)
Definition onClose (o : OpenVpn) : OpenVpn :=
  emit_status (set_status disconnected o).

(** [process.on('error', ...)] *)
Definition onError (message : string) (o : OpenVpn) : OpenVpn :=
  emit_log ("Error: " ++ message) (emit_status (set_status error o)).

Definition handleEvent (e : ProcEvent) (o : OpenVpn) : OpenVpn :=
  match e with
  | Data chunk => handleChunk chunk o
  | Close => onClose o
  | Error message => onError message o
  end.

(** The events that arrive while an [await] is pending run their handlers
    to completion, one after the other. *)
Definition deliver (evs : list ProcEvent) (o : OpenVpn) : OpenVpn :=
  fold_left (fun o e => handleEvent e o) evs o.

(** ** The operating system *)

(** An entry of [psList()]. *)
Record Process : Set := mkProcess { pid : Z; name : string }.

Inductive SysCall : Set :=
| PsList
| FkillOne (p : Z) (force ok : bool)          (* fkill(pid, {force}) *)
| FkillMany (ps : list Z) (force ok : bool)   (* fkill([pids], {force}) *)
| Sleep (ms : Z)
| Mkdir (path : string)
| WriteFile (path content : string)
| Unlink (path : string) (ok : bool)
| Rm (path : string) (ok : bool)
| Spawn (execPath : string) (args : list string).

Record World : Type := mkWorld {
  now : Z;                               (* Date.now() *)
  psScript : list (list Process);        (* successive answers of psList() *)
  fkillScript : list bool;               (* successive fkill outcomes, true = done *)
  fsScript : list (option string);       (* successive unlink/rm outcomes, Some e = throws e *)
  randoms : list string;                 (* Math.random().toString(36).slice(2, 10) *)
  tmpdir : string;                       (* os.tmpdir() *)
  execPath : option string;              (* getExecPath(), None = it throws *)
  files : gmap string string;
  dirs : gset string;
  children : nat;                        (* handles handed out by spawn *)
  calls : list SysCall
}.

Definition with_now (t : Z) (w : World) : World :=
  mkWorld t (psScript w) (fkillScript w) (fsScript w) (randoms w) (tmpdir w)
    (execPath w) (files w) (dirs w) (children w) (calls w).

Definition with_psScript (s : list (list Process)) (w : World) : World :=
  mkWorld (now w) s (fkillScript w) (fsScript w) (randoms w) (tmpdir w)
    (execPath w) (files w) (dirs w) (children w) (calls w).

Definition with_fkillScript (s : list bool) (w : World) : World :=
  mkWorld (now w) (psScript w) s (fsScript w) (randoms w) (tmpdir w)
    (execPath w) (files w) (dirs w) (children w) (calls w).

Definition with_fsScript (s : list (option string)) (w : World) : World :=
  mkWorld (now w) (psScript w) (fkillScript w) s (randoms w) (tmpdir w)
    (execPath w) (files w) (dirs w) (children w) (calls w).

Definition with_randoms (s : list string) (w : World) : World :=
  mkWorld (now w) (psScript w) (fkillScript w) (fsScript w) s (tmpdir w)
    (execPath w) (files w) (dirs w) (children w) (calls w).

Definition with_files (f : gmap string string) (w : World) : World :=
  mkWorld (now w) (psScript w) (fkillScript w) (fsScript w) (randoms w) (tmpdir w)
    (execPath w) f (dirs w) (children w) (calls w).

Definition with_dirs (d : gset string) (w : World) : World :=
  mkWorld (now w) (psScript w) (fkillScript w) (fsScript w) (randoms w) (tmpdir w)
    (execPath w) (files w) d (children w) (calls w).

Definition with_children (n : nat) (w : World) : World :=
  mkWorld (now w) (psScript w) (fkillScript w) (fsScript w) (randoms w) (tmpdir w)
    (execPath w) (files w) (dirs w) n (calls w).

Definition with_calls (c : list SysCall) (w : World) : World :=
  mkWorld (now w) (psScript w) (fkillScript w) (fsScript w) (randoms w) (tmpdir w)
    (execPath w) (files w) (dirs w) (children w) c.

Definition called (c : SysCall) (w : World) : World :=
  with_calls (calls w ++ [c]) w.

(** [await sleep(ms)] *)
Definition sleep (ms : Z) (w : World) : World :=
  called (Sleep ms) (with_now (now w + ms) w).

(** [await psList()] *)
Definition psList (w : World) : list Process * World :=
  match psScript w with
  | [] => ([], called PsList w)
  | ps :: rest => (ps, called PsList (with_psScript rest w))
  end.

Definition next_fkill (w : World) : bool * World :=
  match fkillScript w with
  | [] => (true, w)
  | ok :: rest => (ok, with_fkillScript rest w)
  end.

(** [await fkill(pid, {force})]; [false] stands for a rejection. *)
Definition fkill (p : Z) (force : bool) (w : World) : bool * World :=
  let (ok, w) := next_fkill w in (ok, called (FkillOne p force ok) w).

(** [await fkill(pids, {force})] *)
Definition fkillAll (ps : list Z) (force : bool) (w : World) : bool * World :=
  let (ok, w) := next_fkill w in (ok, called (FkillMany ps force ok) w).

(** ** Process finder and escalating terminator *)

Inductive Outcome : Set :=
| Returned           (* the promise is fulfilled *)
| Raised             (* the promise is rejected *)
| OutOfFuel.

Inductive PollResult : Set :=
| PollReturn         (* [return] inside the loop *)
| PollDone           (* the loop condition failed *)
| PollFuel.

Section Terminator.

(** Modelled from the spec: the constant [OpenvpnExecutableNames] of
    [src/constants/openvpn], "a fixed set of known executable names for
    the supervised binary across platforms". *)
Variable OpenvpnExecutableNames : list string.

Definition getProcesses (w : World) : list Process * World :=
  let (processes, w) := psList w in
  (filter (fun p => existsb (String.eqb (name p)) OpenvpnExecutableNames)
     processes, w).

(** [for (const process of processes) await fkill(process.pid, {force})],
    left at the first rejection. *)
Fixpoint fkillEach (force : bool) (processes : list Process) (w : World)
  : bool * World :=
  match processes with
  | [] => (true, w)
  | p :: rest =>
      let (ok, w) := fkill (pid p) force w in
      if ok then fkillEach force rest w else (false, w)
  end.

(** [while (Date.now() - startTime < timeoutMs) { ... }] *)
Fixpoint poll (fuel : nat) (startTime timeoutMs : Z) (w : World)
  : PollResult * World :=
  match fuel with
  | O => (PollFuel, w)
  | S fuel =>
      if now w - startTime <? timeoutMs then
        let w := sleep 500 w in
        let (processes, w) := getProcesses w in
        if (length processes =? 0)%nat then (PollReturn, w)
        else poll fuel startTime timeoutMs w
      else (PollDone, w)
  end.

(** The force-kill part of [killProcesses], with its [catch] block. *)
Definition forceKill (w : World) : Outcome * World :=
  let (processes, w) := getProcesses w in
  let (ok, w) :=
    if (0 <? length processes)%nat then fkillEach true processes w
    else (true, w) in
  if ok then (Returned, w)
  else
    let w := sleep 500 w in
    let (processes, w) := getProcesses w in
    if (0 <? length processes)%nat then
      let (ok, w) := fkillAll (map pid processes) true w in
      if ok then (Returned, w) else (Raised, w)
    else (Returned, w).

Definition killProcesses_fuel (fuel : nat) (graceful : bool) (timeoutMs : Z)
    (w : World) : Outcome * World :=
  let (processes, w) := getProcesses w in
  if (length processes =? 0)%nat then (Returned, w)
  else if graceful then
    let (ok, w) := fkillEach false processes w in
    if ok then
      match poll fuel (now w) timeoutMs w with
      | (PollReturn, w) => (Returned, w)
      | (PollDone, w) => forceKill w
      | (PollFuel, w) => (OutOfFuel, w)
      end
    else forceKill w
  else forceKill w.

(** Every round of the loop sleeps 500 ms, so this many rounds are
    enough for the loop to end. *)
Definition pollFuel (timeoutMs : Z) : nat := S (Z.to_nat (timeoutMs / 500 + 1)).

Definition killProcesses (graceful : bool) (timeoutMs : Z) (w : World)
  : Outcome * World :=
  killProcesses_fuel (pollFuel timeoutMs) graceful timeoutMs w.

End Terminator.

(** ** Files *)

(** [path.join(a, b)] for a directory and a plain file name. *)
Definition path_join (a b : string) : string := a ++ "/" ++ b.

(** [fs.existsSync(p)] *)
Definition existsSync (p : string) (w : World) : bool :=
  bool_decide (is_Some (files w !! p)) || bool_decide (p ∈ dirs w).

(** [fs.mkdirSync(p, { recursive: true })] *)
Definition mkdirSync (p : string) (w : World) : World :=
  called (Mkdir p) (with_dirs ({[p]} ∪ dirs w) w).

(** [fs.writeFileSync(p, content, 'utf8')] *)
Definition writeFileSync (p content : string) (w : World) : World :=
  called (WriteFile p content) (with_files (<[p:=content]> (files w)) w).

Definition next_fs (w : World) : option string * World :=
  match fsScript w with
  | [] => (None, w)
  | r :: rest => (r, with_fsScript rest w)
  end.

(** [fs.unlinkSync(p)]; [Some e] is the error it throws. *)
Definition unlinkSync (p : string) (w : World) : option string * World :=
  match next_fs w with
  | (None, w) => (None, called (Unlink p true) (with_files (delete p (files w)) w))
  | (Some e, w) => (Some e, called (Unlink p false) w)
  end.

(** [fs.rmSync(p, { recursive: true, force: true })] *)
Definition rmSync (p : string) (w : World) : option string * World :=
  match next_fs w with
  | (None, w) =>
      let inside q := Js.startsWith (p ++ "/") q in
      let w := with_files (filter (fun kv => negb (inside kv.1) = true) (files w)) w in
      let w := with_dirs
                 (filter (fun d => negb (String.eqb d p || inside d) = true) (dirs w)) w in
      (None, called (Rm p true) w)
  | (Some e, w) => (Some e, called (Rm p false) w)
  end.

(** [Math.random().toString(36).slice(2, 10)] *)
Definition random (w : World) : string * World :=
  match randoms w with
  | [] => ("", w)
  | r :: rest => (r, with_randoms rest w)
  end.

(** [`${Date.now()}`] *)
Definition nowText (w : World) : string := pretty (now w).

(** The argument of the static [createFromConfig]. *)
Record ConfigOptions : Set := mkConfigOptions {
  cfg_config : string;
  cfg_username : option string;
  cfg_password : option string;
  cfg_useAuthFile : bool;
  cfg_customFlags : list string
}.

(** [OpenVpn.createFromConfig(options)]; the path of the credential file
    is returned next to the instance. *)
Definition createFromConfig (options : ConfigOptions) (w : World)
  : OpenVpn * string * World :=
  let tempDir := path_join (tmpdir w) ("openvpn-client-" ++ nowText w) in
  let w := if negb (existsSync tempDir w) then mkdirSync tempDir w else w in
  let (r1, w) := random w in
  let configFileName := "config-" ++ nowText w ++ "-" ++ r1 ++ ".ovpn" in
  let (r2, w) := random w in
  let authFileName := "auth-" ++ nowText w ++ "-" ++ r2 in
  let configPath := path_join tempDir configFileName in
  let authPath := path_join tempDir authFileName in
  let w := writeFileSync configPath (cfg_config options) w in
  let w :=
    if cfg_useAuthFile options then
      writeFileSync authPath
        (Js.show (cfg_username options) ++ ":" ++ Js.show (cfg_password options)) w
    else w in
  let instance :=
    new (mkOptions configPath (cfg_username options) (cfg_password options)
           (Some authPath) (cfg_useAuthFile options) (cfg_customFlags options)) in
  (with_tempDir (Some tempDir) true instance, authPath, w).

(** [this.createAuthFile()] *)
Definition createAuthFile (o : OpenVpn) (w : World) : string * OpenVpn * World :=
  let '(o, w) :=
    if negb (Js.truthy (tempDir o)) then
      let d := path_join (tmpdir w) ("openvpn-client-" ++ nowText w) in
      let o := with_tempDir (Some d) (isTempConfig o) o in
      (o, if negb (existsSync d w) then mkdirSync d w else w)
    else (o, w) in
  let (r, w) := random w in
  let authFileName := "auth-" ++ nowText w ++ "-" ++ r in
  let authPath := path_join (Js.show (tempDir o)) authFileName in
  let w := writeFileSync authPath
             (Js.show (username o) ++ Js.nl ++ Js.show (password o)) w in
  (authPath, o, w).

(** [this.cleanupTempConfig()] *)
Definition cleanupTempConfig (o : OpenVpn) (w : World) : OpenVpn * World :=
  let '(failure, w) :=
    let '(e1, w) :=
      if Js.truthyStr (configPath o) && existsSync (configPath o) w
      then unlinkSync (configPath o) w else (None, w) in
    match e1 with
    | Some e => (Some e, w)
    | None =>
        if Js.truthy (authPath o) && existsSync (Js.show (authPath o)) w
        then unlinkSync (Js.show (authPath o)) w else (None, w)
    end in
  let o :=
    match failure with
    | Some e => emit_log ("Error cleaning up temp files: " ++ e) o
    | None => o
    end in
  if Js.truthy (tempDir o) && isTempConfig o && existsSync (Js.show (tempDir o)) w
  then
    match rmSync (Js.show (tempDir o)) w with
    | (None, w) => (o, w)
    | (Some e, w) => (emit_log ("Error cleaning up temp directory: " ++ e) o, w)
    end
  else (o, w).

(** [this.cleanup()] *)
Definition cleanup (o : OpenVpn) (w : World) : OpenVpn * World :=
  cleanupTempConfig o w.

(** ** The supervisor: bootstrap, connect, disconnect *)

(** The guard of [disconnect]:
    [status !== 'disconnected' && status !== 'stopped' && status !== 'disconnecting']. *)
Definition notTerminal (s : Status) : bool :=
  negb (Status_eqb s disconnected) && negb (Status_eqb s stopped)
  && negb (Status_eqb s disconnecting).

(** The guard of the timer of [connect]. *)
Definition timeoutApplies (s : Status) : bool :=
  negb (Status_eqb s connected) && negb (Status_eqb s disconnected)
  && negb (Status_eqb s reconnecting) && negb (Status_eqb s disconnecting).

(** [disconnect] up to its first [await]. *)
Definition disconnect_begin (graceful : bool) (o : OpenVpn) : OpenVpn :=
  let o :=
    if notTerminal (status o) then emit_status (set_status disconnecting o)
    else o in
  match process o with
  | Some p => if graceful then record (Kill p) o else o
  | None => o
  end.

(** [disconnect] after [await this.killProcesses(...)] has returned;
    [ev3] arrives during the final 250 ms. *)
Definition disconnect_end (ev3 : list ProcEvent) (o : OpenVpn) (w : World)
  : OpenVpn * World :=
  let o := with_process None o in
  let o :=
    if notTerminal (status o) then emit_status (set_status disconnected o)
    else o in
  let (o, w) := cleanupTempConfig o w in
  (deliver ev3 o, sleep 250 w).

(** [spawn(execPath, args, ...)] *)
Definition spawn (path : string) (args : list string) (w : World)
  : ChildProcess * World :=
  (children w, called (Spawn path args) (with_children (S (children w)) w)).

Section Supervisor.

(** Modelled from the spec: the constant [OpenvpnExecutableNames] of
    [src/constants/openvpn] (see [getProcesses]). *)
Variable OpenvpnExecutableNames : list string.

(** [disconnect(graceful, timeoutMs)].  [ev1], [ev2] and [ev3] are the
    process events that arrive during the three waits of the method: the
    sleep after the interrupt, [killProcesses], and the final 250 ms. *)
Definition disconnect (graceful : bool) (timeoutMs : Z)
    (ev1 ev2 ev3 : list ProcEvent) (o : OpenVpn) (w : World)
  : Outcome * OpenVpn * World :=
  let o := disconnect_begin graceful o in
  let '(o, w) :=
    if bool_decide (is_Some (process o)) && graceful
    then (deliver ev1 o, sleep (Z.min 500 (timeoutMs / 2)) w)
    else (o, w) in
  let (r, w) := killProcesses OpenvpnExecutableNames graceful timeoutMs w in
  let o := deliver ev2 o in
  match r with
  | Returned =>
      let (o, w) := disconnect_end ev3 o w in (Returned, o, w)
  | r => (r, o, w)
  end.

(** [bootstrap()]; [ev1] and [ev2] arrive during its two waits. *)
Definition bootstrap (ev1 ev2 : list ProcEvent) (o : OpenVpn) (w : World)
  : Outcome * OpenVpn * World :=
  let o := emit_status (set_status connecting o) in
  let '(o, w) :=
    match process o with
    | Some p => (deliver ev1 (record (Kill p) o), sleep 500 w)
    | None => (o, w)
    end in
  let (r, w) := killProcesses OpenvpnExecutableNames true 1000 w in
  let o := deliver ev2 o in
  match r with
  | Returned => (Returned, with_process None o, w)
  | r => (r, o, w)
  end.

(** [connect()] up to [return new Promise(...)]: [Returned] means that
    the child is spawned, the handlers and the status listener are
    registered and the 30 s timer is armed; the promise is [Pending]. *)
Definition connect (ev1 ev2 : list ProcEvent) (o : OpenVpn) (w : World)
  : Outcome * OpenVpn * World :=
  match bootstrap ev1 ev2 o w with
  | (Returned, o, w) =>
      match execPath w with
      | None => (Raised, o, w)
      | Some path =>
          let args := ["--config"; configPath o] in
          let args :=
            if useAuthFile o && Js.truthy (authPath o)
            then (args ++ ["--auth-user-pass"; Js.show (authPath o)])%list
            else args in
          let '(args, o, w) :=
            if useAuthFile o && negb (Js.truthy (authPath o)) then
              let '(p, o, w) := createAuthFile o w in
              ((args ++ ["--auth-user-pass"; p])%list, with_authPath (Some p) o, w)
            else (args, o, w) in
          let args :=
            if (0 <? length (customFlags o))%nat
            then (args ++ customFlags o)%list
            else args in
          let (child, w) := spawn path args w in
          let o := with_process (Some child) o in
          (Returned, with_listener true (with_promise Pending o), w)
      end
  | r => r
  end.

(** The callback of [setTimeout(..., 30000)] in [connect].  The
    [disconnect()] it calls runs with the defaults [graceful = true],
    [timeoutMs = 1000]; nothing awaits it. *)
Definition onTimeout (ev1 ev2 ev3 : list ProcEvent) (o : OpenVpn) (w : World)
  : OpenVpn * World :=
  let o := with_listener false o in
  if timeoutApplies (status o) then
    let o := reject "Connection timeout" o in
    let '(_, o, w) := disconnect true 1000 ev1 ev2 ev3 o w in
    (o, w)
  else (o, w).

End Supervisor.

(** ** Reading the history *)

Definition statusEvents (h : list Action) : list Status :=
  omap (fun a => match a with EmitStatus s => Some s | _ => None end) h.

Definition stdinWrites (h : list Action) : list string :=
  omap (fun a => match a with StdinWrite _ d => Some d | _ => None end) h.

(** The emission discipline, checked along a history: the first component
    is the stored status, the second tells that an assignment still waits
    for its emission. *)
Definition checkAction (c : option (Status * bool)) (a : Action)
  : option (Status * bool) :=
  match c with
  | None => None
  | Some (cur, waiting) =>
      match a with
      | SetStatus s => if waiting then None else Some (s, true)
      | EmitStatus p => if Status_eqb p cur then Some (cur, false) else None
      | _ => if waiting then None else Some (cur, false)
      end
  end.

Definition checkHistory (h : list Action) : option (Status * bool) :=
  fold_left checkAction h (Some (stopped, false)).

(** Every assignment of the status is directly followed by the emission
    of the new value, every emission carries the stored value, and the
    stored value is the [status] field. *)
Definition emissionConsistent (o : OpenVpn) : Prop :=
  checkHistory (history o) = Some (status o, false).

(** ** The classifier read as a table *)

(** One conditional of [handleLog]: the substrings it looks for, its
    condition on the current status, the status it assigns and the
    credential it asks the auth responder for. *)
Record Entry : Set := mkEntry {
  substrings : list string;
  guard : Status -> bool;
  target : Status;
  sideEffect : option AuthType
}.

Definition anyStatus (_ : Status) : bool := true.

(** The conditionals of [handleLog], in source order. *)
Definition table : list Entry :=
  [ mkEntry [pat_push; pat_init] (fun s => negb (Status_eqb s connected))
      connected None;
    mkEntry [pat_exiting] anyStatus disconnected None;
    mkEntry [pat_username] anyStatus auth_username (Some type_username);
    mkEntry [pat_password] anyStatus auth_password (Some type_password);
    mkEntry [pat_verification; pat_auth_failed] anyStatus auth_failed None;
    mkEntry [pat_peer] anyStatus auth_success None;
    mkEntry [pat_sigusr1] anyStatus reconnecting None;
    mkEntry [pat_arp] (fun s => Status_eqb s reconnecting) connected None ].

(** The line contains one of the substrings of the entry. *)
Definition matches (line : string) (e : Entry) : bool :=
  existsb (Js.includes line) (substrings e).

(** The transition of an entry, with its side effect. *)
Definition fire (e : Entry) (o : OpenVpn) : OpenVpn :=
  let o := emit_status (set_status (target e) o) in
  match sideEffect e with
  | Some t => handleAuth t o
  | None => o
  end.

Definition applyEntry (line : string) (o : OpenVpn) (e : Entry) : OpenVpn :=
  if matches line e && guard e (status o) then fire e o else o.

(** Every entry is tried, one after the other, on the state that the
    entries before it left. *)
Definition applyAll (line : string) (o : OpenVpn) : OpenVpn :=
  fold_left (applyEntry line) table (emit_log line o).


(** All the substrings of the table. *)
Definition patterns : list string :=
  [ pat_push; pat_init; pat_exiting; pat_username; pat_password;
    pat_verification; pat_auth_failed; pat_peer; pat_sigusr1; pat_arp ].

(** The line contains none of the given substrings. *)
Definition containsNone (line : string) (ps : list string) : bool :=
  forallb (fun p => negb (Js.includes line p)) ps.

(** ** Sessions as sequences of operations *)

(** The operations that change a session: the public methods, the
    handlers of the child's events, the timer of [connect], and the private
    methods the claims speak about. *)
Inductive Op : Set :=
| OpConnect (ev1 ev2 : list ProcEvent)
| OpEvents (evs : list ProcEvent)
| OpTimeout (ev1 ev2 ev3 : list ProcEvent)
| OpDisconnect (graceful : bool) (timeoutMs : Z) (ev1 ev2 ev3 : list ProcEvent)
| OpBootstrap (ev1 ev2 : list ProcEvent)
| OpCleanup
| OpKillProcesses (graceful : bool) (timeoutMs : Z)
| OpHandleChunk (chunk : string)
| OpHandleLog (line : string)
| OpHandleAuth (type : AuthType).

Definition runOp (names : list string) (s : OpenVpn * World) (op : Op)
  : OpenVpn * World :=
  let (o, w) := s in
  match op with
  | OpConnect ev1 ev2 => let '(_, o, w) := connect names ev1 ev2 o w in (o, w)
  | OpEvents evs => (deliver evs o, w)
  | OpTimeout ev1 ev2 ev3 => onTimeout names ev1 ev2 ev3 o w
  | OpDisconnect graceful timeoutMs ev1 ev2 ev3 =>
      let '(_, o, w) := disconnect names graceful timeoutMs ev1 ev2 ev3 o w in (o, w)
  | OpBootstrap ev1 ev2 => let '(_, o, w) := bootstrap names ev1 ev2 o w in (o, w)
  | OpCleanup => cleanup o w
  | OpKillProcesses graceful timeoutMs =>
      (o, (killProcesses names graceful timeoutMs w).2)
  | OpHandleChunk chunk => (handleChunk chunk o, w)
  | OpHandleLog line => (handleLog line o, w)
  | OpHandleAuth type => (handleAuth type o, w)
  end.

Definition runOps (names : list string) (ops : list Op) (s : OpenVpn * World)
  : OpenVpn * World :=
  fold_left (runOp names) ops s.

(** The actions recorded since an earlier state of the same session. *)
Definition since (o o' : OpenVpn) : list Action :=
  drop (length (history o)) (history o').

(** The statuses that settle the promise of [connect]. *)
Definition settling (s : Status) : bool :=
  Status_eqb s connected || Status_eqb s error || Status_eqb s auth_failed.

(** No line feed in the text. *)
Fixpoint noLF (s : string) : bool :=
  match s with
  | EmptyString => true
  | String c s' => negb (Ascii.eqb c Js.LF) && noLF s'
  end.

(** ** Primitive steps *)

(** Whatever a handler or a method does to the session, it does by these
    steps: a transition (assignment and emission), an action that is not
    about the status, or the update of a field that is neither the status
    nor the emitter. *)
Inductive prim : OpenVpn -> OpenVpn -> Prop :=
| prim_transition s o : prim o (emit_status (set_status s o))
| prim_record a o :
    match a with SetStatus _ | EmitStatus _ => False | _ => True end ->
    prim o (record a o)
| prim_process p o : prim o (with_process p o)
| prim_authPath p o : prim o (with_authPath p o)
| prim_tempDir d b o : prim o (with_tempDir d b o).

Definition steps : OpenVpn -> OpenVpn -> Prop := rtc prim.

(** The listener of [connect] is registered and its promise is pending. *)
Definition waiting (o : OpenVpn) : Prop :=
  statusListener o = true /\ connectPromise o = Pending.

(** ** Auxiliary notions and sample sessions *)

(** A small session to run the examples on: a configuration file, the
    user ["alice"], no password. *)
Definition alice : OpenVpn :=
  new (mkOptions "client.ovpn" (Some "alice") None None false []).

Definition arpLine : string :=
  "2024-01-01 Successful ARP Flush on interface [12] {GUID}".

Definition pushLine : string :=
  "PUSH: Received control message: 'PUSH_REPLY,route-gateway 10.8.0.1'".

(** The pieces in front of a line feed do not depend on what follows it. *)
Definition cutsAt (s : string) : Prop :=
  exists ps, ps <> [] /\ forall t, Js.split (s ++ Js.nl ++ t) = (ps ++ Js.split t)%list.

(** A world in which nothing runs and every primitive succeeds. *)
Definition calm : World :=
  mkWorld 1700000000000 [] [] [] ["k3j9x0aa"; "p0q1r2s3"] "/tmp"
    (Some "/usr/sbin/openvpn") ∅ ∅ 0 [].

Definition bob : ConfigOptions :=
  mkConfigOptions "client" (Some "bob") (Some "secret") true [].

(** What a call of [killProcesses] can come to. *)
Definition settled (r : Outcome * World) : Prop :=
  r.1 = Returned
  \/ r.1 = Raised /\ exists ps, last (calls r.2) = Some (FkillMany ps true false).

(** Executable names to run the examples with; the tests of the
    repository look for ["openvpn.exe"]. *)
Definition executables : list string := ["openvpn"; "openvpn.exe"].




(** A session in which [connect] has returned its promise. *)
Definition connecting_alice : OpenVpn := (connect executables [] [] alice calm).1.2.

Definition calm_after_connect : World := (connect executables [] [] alice calm).2.

(** A world without the OpenVPN executable: [getExecPath] throws. *)
Definition bare : World :=
  mkWorld 1700000000000 [] [] [] [] "/tmp" None ∅ ∅ 0 [].

(** ** What handlers may do *)

(** What [hprim] lets into the history. *)
Definition allowed (P : Status -> Prop) (Q : Action -> Prop) (a : Action) : Prop :=
  match a with
  | SetStatus s | EmitStatus s => P s
  | _ => Q a
  end.

(** The steps of the handlers of the child's events and of the cleanup:
    a transition to a status allowed by [P], or a recorded action allowed
    by [Q] that is not about the status.  No field of the configuration
    and no process handle is touched. *)
Inductive hprim (P : Status -> Prop) (Q : Action -> Prop)
  : OpenVpn -> OpenVpn -> Prop :=
| hprim_transition s o : P s -> hprim P Q o (emit_status (set_status s o))
| hprim_record a o :
    match a with SetStatus _ | EmitStatus _ => False | _ => True end ->
    Q a -> hprim P Q o (record a o).

Definition hsteps (P : Status -> Prop) (Q : Action -> Prop)
  : OpenVpn -> OpenVpn -> Prop := rtc (hprim P Q).

(** The statuses that [handleLog] assigns. *)
Definition classifierStatus (s : Status) : Prop :=
  s = connected \/ s = disconnected \/ s = auth_username \/ s = auth_password
  \/ s = auth_failed \/ s = auth_success \/ s = reconnecting.

(** The statuses that the handlers of the child's events assign. *)
Definition handlerStatus (s : Status) : Prop :=
  classifierStatus s \/ s = error.

(** A write of one of the two credentials, each followed by a line feed. *)
Definition credentialWrite (u pw : option string) (a : Action) : Prop :=
  match a with
  | StdinWrite _ d => d = Js.show u ++ Js.nl \/ d = Js.show pw ++ Js.nl
  | _ => False
  end.

Definition isEmitLog (a : Action) : Prop :=
  match a with EmitLog _ => True | _ => False end.

Definition logOrCredential (u pw : option string) (a : Action) : Prop :=
  isEmitLog a \/ credentialWrite u pw a.

(** The fields that only the constructor, [createAuthFile] and [connect]
    set. *)
Definition sameSettings (o o' : OpenVpn) : Prop :=
  configPath o' = configPath o /\ username o' = username o
  /\ password o' = password o /\ authPath o' = authPath o
  /\ useAuthFile o' = useAuthFile o /\ customFlags o' = customFlags o
  /\ tempDir o' = tempDir o /\ isTempConfig o' = isTempConfig o
  /\ process o' = process o.

(** The same, but for the process handle. *)
Definition sameConfig (o o' : OpenVpn) : Prop :=
  configPath o' = configPath o /\ username o' = username o
  /\ password o' = password o /\ authPath o' = authPath o
  /\ useAuthFile o' = useAuthFile o /\ customFlags o' = customFlags o
  /\ tempDir o' = tempDir o /\ isTempConfig o' = isTempConfig o.

Definition logEvents (h : list Action) : list string :=
  omap (fun a => match a with EmitLog l => Some l | _ => None end) h.

(** The pieces of a chunk that reach the classifier. *)
Definition classifiedLines (chunk : string) : list string :=
  List.filter (fun l => Js.truthyStr (Js.trim l)) (Js.split chunk).

(** Only white space and line terminators in the text. *)
Fixpoint allWhite (s : string) : bool :=
  match s with
  | EmptyString => true
  | String c s' => Js.isWhiteSpace c && allWhite s'
  end.

(** The outcome that the listener of [connect] gives to a status. *)
Definition settlement (s : Status) : Promise :=
  if Status_eqb s connected then Resolved
  else Rejected ("Connection failed: " ++ Status_to_string s).

(** What the promise has become after some steps. *)
Definition settledBy (h : list Action) (o' : OpenVpn) : Prop :=
  match find settling (statusEvents h) with
  | Some s => statusListener o' = false /\ connectPromise o' = settlement s
  | None => waiting o'
  end.

(** ** Reading the calls of the world *)

(** The process ids handed to [fkill]. *)
Definition killedPids (cs : list SysCall) : list Z :=
  flat_map (fun c => match c with
                     | FkillOne p _ _ => [p]
                     | FkillMany ps _ _ => ps
                     | _ => []
                     end) cs.

(** The calls of [fkill] without [force]. *)
Definition gentleKills (cs : list SysCall) : list SysCall :=
  List.filter (fun c => match c with
                        | FkillOne _ false _ | FkillMany _ false _ => true
                        | _ => false
                        end) cs.

Definition sleeps (cs : list SysCall) : list Z :=
  omap (fun c => match c with Sleep ms => Some ms | _ => None end) cs.

(** The calls made since an earlier state of the world. *)
Definition callsSince (w w' : World) : list SysCall :=
  drop (length (calls w)) (calls w').

(** The part of the world that [killProcesses] leaves alone. *)
Definition sameDisk (w w' : World) : Prop :=
  files w' = files w /\ dirs w' = dirs w /\ fsScript w' = fsScript w
  /\ randoms w' = randoms w /\ tmpdir w' = tmpdir w /\ execPath w' = execPath w
  /\ children w' = children w.

(** The processes with one of the given names among all the answers
    that [psList] still has to give. *)
Definition listed (names : list string) (w : World) : list Z :=
  map pid
    (List.filter (fun p => existsb (String.eqb (name p)) names)
       (concat (psScript w))).

(** What a run of the terminator keeps, for a list [L] of process ids
    that may be signalled: the disk is left alone, the clock does not go
    back, and as long as the processes still to be listed are in [L], so
    are the processes signalled. *)
Definition killStep (names : list string) (L : list Z) (w w' : World) : Prop :=
  sameDisk w w' /\ now w <= now w'
  /\ (listed names w ⊆ L ->
      listed names w' ⊆ L
      /\ exists cs, calls w' = (calls w ++ cs)%list /\ killedPids cs ⊆ L).

(** Nothing is at [d] and nothing is inside it. *)
Definition freshDir (d : string) (w : World) : Prop :=
  existsSync d w = false
  /\ forall q, Js.startsWith (d ++ "/") q = true -> files w !! q = None /\ q ∉ dirs w.

(** The directory that [createFromConfig] and [createAuthFile] make. *)
Definition newTempDir (w : World) : string :=
  path_join (tmpdir w) ("openvpn-client-" ++ nowText w).

(** The three removals of [cleanupTempConfig], as they go when none of
    them fails. *)
Definition removeConfig (o : OpenVpn) (w : World) : World :=
  if Js.truthyStr (configPath o) && existsSync (configPath o) w
  then (unlinkSync (configPath o) w).2 else w.

Definition removeAuth (o : OpenVpn) (w : World) : World :=
  if Js.truthy (authPath o) && existsSync (Js.show (authPath o)) w
  then (unlinkSync (Js.show (authPath o)) w).2 else w.

Definition removeTempDir (o : OpenVpn) (w : World) : World :=
  if Js.truthy (tempDir o) && isTempConfig o && existsSync (Js.show (tempDir o)) w
  then (rmSync (Js.show (tempDir o)) w).2 else w.

(** ** Locating the executable *)

Section ExecPath.

(** [path.join] of Node, which depends on the platform. *)
Variable join : list string -> string.

(** [process.env.X || ''] *)
Definition envOr (env : gmap string string) (x : string) : string :=
  match env !! x with
  | Some v => v
  | None => ""
  end.

Definition macPaths : list string :=
  [ "/usr/local/sbin/openvpn"; "/usr/local/bin/openvpn";
    "/opt/homebrew/bin/openvpn" ].

Definition linuxPaths : list string :=
  [ "/usr/sbin/openvpn"; "/usr/bin/openvpn"; "/sbin/openvpn" ].

(** [for (const p of paths) if (fs.existsSync(p)) return p] *)
Definition firstExisting (paths : list string) (w : World) : option string :=
  find (fun p => existsSync p w) paths.

(** The tail of [getExecPath], after the platform defaults. *)
Definition execFallback (env : gmap string string) (w : World) : string :=
  if Js.truthy (env !! "OPENVPN_BIN_PATH") then
    let customPath := join [envOr env "OPENVPN_BIN_PATH"; "openvpn"] in
    if existsSync customPath w then customPath else "openvpn"
  else "openvpn".

(** [this.getExecPath()]; [None] is [throw new Error('OpenVPN not found')]. *)
Definition getExecPath (platform : string) (env : gmap string string)
    (w : World) : option string :=
  if String.eqb platform "win32" then
    let programFiles := envOr env "PROGRAMFILES" in
    let programFilesX86 := envOr env "PROGRAMFILES(X86)" in
    let openvpnPath := join [programFiles; "OpenVPN"; "bin"; "openvpn.exe"] in
    if existsSync openvpnPath w then Some openvpnPath
    else
      let openvpnPathX86 :=
        join [programFilesX86; "OpenVPN"; "bin"; "openvpn.exe"] in
      if existsSync openvpnPathX86 w then Some openvpnPathX86 else None
  else if String.eqb platform "darwin" then
    match firstExisting macPaths w with
    | Some p => Some p
    | None => Some (execFallback env w)
    end
  else
    match firstExisting linuxPaths w with
    | Some p => Some p
    | None => Some (execFallback env w)
    end.

End ExecPath.

(** ** Network interfaces (src/utils/network.ts) *)

Module Network.

(** An entry of [networkInterfaces()], with the two fields that are read. *)
Record Interface : Set := mkInterface { ifaceName : string; operstate : string }.

(** [c.toLowerCase()] for a code unit below 256: the letters A to Z and
    the capital letters of Latin-1 (U+00C0 to U+00DE without U+00D7). *)
Definition lowerChar (c : ascii) : ascii :=
  let n := nat_of_ascii c in
  if ((65 <=? n) && (n <=? 90)
      || (192 <=? n) && (n <=? 222) && negb (n =? 215))%nat
  then ascii_of_nat (n + 32) else c.

(** [s.toLowerCase()] *)
Fixpoint toLowerCase (s : string) : string :=
  match s with
  | EmptyString => EmptyString
  | String c s' => String (lowerChar c) (toLowerCase s')
  end.

Definition suspiciousInterfaces : list string :=
  [ "tun"; "tap"; "ppp"; "vpn"; "nord"; "express"; "surfshark";
    "cyberghost"; "tunnel"; "openvpn"; "wireguard" ].

Definition isUp (iface : Interface) : bool := String.eqb (operstate iface) "up".

(** [detectVPNViaNetworkInterfaces], on the answer of
    [networkInterfaces()]. *)
Definition detectVPNViaNetworkInterfaces (interfaces : list Interface) : bool :=
  existsb
    (fun iface =>
       isUp iface
       && existsb
            (fun susName =>
               Js.includes (toLowerCase (ifaceName iface)) (toLowerCase susName))
            suspiciousInterfaces)
    interfaces.

(** [isAnyOpenVpnInterfaceUp], on the answer of [networkInterfaces()]. *)
Definition isAnyOpenVpnInterfaceUp (interfaces : list Interface) : bool :=
  existsb
    (fun iface =>
       isUp iface && Js.includes (toLowerCase (ifaceName iface)) "openvpn")
    interfaces.

End Network.

(** ** Sample inputs for the further properties *)

(** A session whose user name and password are both set. *)
Definition carol : OpenVpn :=
  with_process (Some 3%nat)
    (new (mkOptions "client.ovpn" (Some "carol") (Some "pw") None false [])).

(** * Properties *)

(** ** The model on small inputs *)

Example split_crlf :
  Js.split ("a" ++ String Js.CR Js.nl ++ "b" ++ Js.nl ++ Js.nl ++ " c")
  = ["a"; "b"; ""; " c"].
Proof. reflexivity. Qed.

Example split_lone_cr :
  Js.split (String Js.CR (String Js.CR Js.nl)) = [String Js.CR ""; ""].
Proof. reflexivity. Qed.

Example trim_blank : Js.trim "  a b  " = "a b" /\ Js.trim "   " = "".
Proof. split; reflexivity. Qed.

Example includes_is_case_sensitive :
  Js.includes "process exiting" pat_exiting = false
  /\ Js.includes "Exiting due to fatal error" pat_exiting = true.
Proof. split; reflexivity. Qed.

(** The discipline is not met by an assignment that is not emitted, by an
    assignment emitted late, or by an emission of another value. *)
Example checkHistory_rejects :
  checkHistory [SetStatus connected] = Some (connected, true)
  /\ checkHistory [SetStatus connected; EmitLog "x"; EmitStatus connected] = None
  /\ checkHistory [SetStatus connected; EmitStatus connecting] = None
  /\ checkHistory [EmitStatus connected] = None
  /\ checkHistory [SetStatus connected; EmitStatus connected; EmitStatus connected]
     = Some (connected, false).
Proof. repeat split; reflexivity. Qed.

(** ** Fields under the primitives *)

Lemma status_record a o : status (record a o) = status o.
Proof. reflexivity. Qed.

Lemma history_record a o : history (record a o) = (history o ++ [a])%list.
Proof. reflexivity. Qed.

Lemma status_set_status s o : status (set_status s o) = s.
Proof. reflexivity. Qed.

Lemma history_set_status s o :
  history (set_status s o) = (history o ++ [SetStatus s])%list.
Proof. reflexivity. Qed.

Lemma status_run_statusListener s o :
  status (run_statusListener s o) = status o.
Proof.
  unfold run_statusListener, resolve, reject.
  repeat case_match; reflexivity.
Qed.

Lemma history_run_statusListener s o :
  history (run_statusListener s o) = history o.
Proof.
  unfold run_statusListener, resolve, reject.
  repeat case_match; reflexivity.
Qed.

Lemma status_emit_status o : status (emit_status o) = status o.
Proof.
  unfold emit_status. case_match; [now rewrite status_run_statusListener | reflexivity].
Qed.

Lemma history_emit_status o :
  history (emit_status o) = (history o ++ [EmitStatus (status o)])%list.
Proof.
  unfold emit_status. case_match; [now rewrite history_run_statusListener | reflexivity].
Qed.

(** A transition, as the source writes it everywhere:
    [this.status = s; this.eventEmitter.emit('status', this.status)]. *)
Lemma status_transition s o : status (emit_status (set_status s o)) = s.
Proof. now rewrite status_emit_status. Qed.

Lemma history_transition s o :
  history (emit_status (set_status s o))
  = (history o ++ [SetStatus s; EmitStatus s])%list.
Proof.
  rewrite history_emit_status, history_set_status, status_set_status.
  now rewrite <- app_assoc.
Qed.

(** ** The classifier is its table *)

Lemma handleLog_applyAll line o : handleLog line o = applyAll line o.
Proof.
  unfold handleLog, applyAll, table, applyEntry, matches, fire; simpl.
  unfold anyStatus. rewrite ?orb_false_r, ?andb_true_r. reflexivity.
Qed.

(** ** Every operation is a sequence of primitive steps *)

Lemma steps_refl o : steps o o.
Proof. apply rtc_refl. Qed.

Lemma steps_trans o1 o2 o3 : steps o1 o2 -> steps o2 o3 -> steps o1 o3.
Proof. apply rtc_trans. Qed.

Lemma steps_transition s o : steps o (emit_status (set_status s o)).
Proof. apply rtc_once, prim_transition. Qed.

Lemma steps_emit_log l o : steps o (emit_log l o).
Proof. apply rtc_once, prim_record. exact I. Qed.

Lemma steps_kill p o : steps o (record (Kill p) o).
Proof. apply rtc_once, prim_record. exact I. Qed.

Lemma steps_stdin_write d o : steps o (stdin_write d o).
Proof.
  unfold stdin_write. destruct (process o).
  - apply rtc_once, prim_record. exact I.
  - apply steps_refl.
Qed.

Lemma steps_with_process p o : steps o (with_process p o).
Proof. apply rtc_once, prim_process. Qed.

Lemma steps_handleAuth t o : steps o (handleAuth t o).
Proof.
  unfold handleAuth.
  destruct t; repeat case_match;
    auto using steps_stdin_write, steps_transition, steps_refl.
Qed.

Lemma steps_fire e o : steps o (fire e o).
Proof.
  unfold fire. destruct (sideEffect e).
  - eapply steps_trans; [apply steps_transition | apply steps_handleAuth].
  - apply steps_transition.
Qed.

Lemma steps_applyEntry line o e : steps o (applyEntry line o e).
Proof.
  unfold applyEntry. case_match; [apply steps_fire | apply steps_refl].
Qed.

Lemma steps_fold_applyEntry line tbl o :
  steps o (fold_left (applyEntry line) tbl o).
Proof.
  revert o. induction tbl as [|e tbl IH]; intros o; simpl.
  - apply steps_refl.
  - eapply steps_trans; [apply steps_applyEntry | apply IH].
Qed.

Lemma steps_handleLog line o : steps o (handleLog line o).
Proof.
  rewrite handleLog_applyAll. unfold applyAll.
  eapply steps_trans; [apply steps_emit_log | apply steps_fold_applyEntry].
Qed.

Lemma steps_handleLines lines o : steps o (handleLines lines o).
Proof.
  unfold handleLines. revert o.
  induction lines as [|l lines IH]; intros o; simpl.
  - apply steps_refl.
  - eapply steps_trans; [| apply IH].
    case_match; [apply steps_handleLog | apply steps_refl].
Qed.

Lemma steps_handleChunk chunk o : steps o (handleChunk chunk o).
Proof. apply steps_handleLines. Qed.

Lemma steps_handleEvent e o : steps o (handleEvent e o).
Proof.
  destruct e; simpl.
  - apply steps_handleChunk.
  - apply steps_transition.
  - eapply steps_trans; [apply steps_transition | apply steps_emit_log].
Qed.

Lemma steps_deliver evs o : steps o (deliver evs o).
Proof.
  unfold deliver. revert o.
  induction evs as [|e evs IH]; intros o; simpl.
  - apply steps_refl.
  - eapply steps_trans; [apply steps_handleEvent | apply IH].
Qed.

Lemma steps_disconnect_begin graceful o : steps o (disconnect_begin graceful o).
Proof.
  unfold disconnect_begin.
  eapply steps_trans with (o2 := if notTerminal (status o) then _ else _).
  - case_match; [apply steps_transition | apply steps_refl].
  - repeat case_match; auto using steps_kill, steps_refl.
Qed.

Lemma steps_cleanupTempConfig o w : steps o (cleanupTempConfig o w).1.
Proof.
  unfold cleanupTempConfig.
  repeat (case_match; simpl; try apply steps_refl; try apply steps_emit_log).
  all: try (eapply steps_trans; [apply steps_emit_log | apply steps_emit_log]).
Qed.

Lemma steps_createAuthFile o w : steps o (createAuthFile o w).1.2.
Proof.
  unfold createAuthFile.
  repeat (case_match; simplify_eq; simpl; try apply steps_refl).
  all: apply rtc_once, prim_tempDir.
Qed.

Lemma steps_disconnect_end ev3 o w : steps o (disconnect_end ev3 o w).1.
Proof.
  unfold disconnect_end.
  set (o1 := if notTerminal (status (with_process None o)) then _ else _).
  assert (H1 : steps o o1).
  { eapply steps_trans; [apply (steps_with_process None) |].
    subst o1. case_match; [apply steps_transition | apply steps_refl]. }
  pose proof (steps_cleanupTempConfig o1 w) as H2.
  destruct (cleanupTempConfig o1 w) as [o2 w2]; simpl in *.
  eauto using steps_trans, steps_deliver.
Qed.

Section StepsSupervisor.

Variable names : list string.

Lemma steps_disconnect graceful timeoutMs ev1 ev2 ev3 o w :
  steps o (disconnect names graceful timeoutMs ev1 ev2 ev3 o w).1.2.
Proof.
  unfold disconnect.
  pose proof (steps_disconnect_begin graceful o) as H0.
  set (o0 := disconnect_begin graceful o) in *.
  destruct (bool_decide (is_Some (process o0)) && graceful).
  - destruct (killProcesses names graceful timeoutMs _) as [r w1].
    assert (Ho2 : steps o (deliver ev2 (deliver ev1 o0)))
      by eauto using steps_trans, steps_deliver.
    destruct r; simpl; try exact Ho2.
    pose proof (steps_disconnect_end ev3 (deliver ev2 (deliver ev1 o0)) w1) as He.
    destruct (disconnect_end ev3 _ w1) as [o4 w4]; simpl in *.
    eauto using steps_trans.
  - destruct (killProcesses names graceful timeoutMs _) as [r w1].
    assert (Ho2 : steps o (deliver ev2 o0))
      by eauto using steps_trans, steps_deliver.
    destruct r; simpl; try exact Ho2.
    pose proof (steps_disconnect_end ev3 (deliver ev2 o0) w1) as He.
    destruct (disconnect_end ev3 _ w1) as [o4 w4]; simpl in *.
    eauto using steps_trans.
Qed.

Lemma steps_bootstrap ev1 ev2 o w :
  steps o (bootstrap names ev1 ev2 o w).1.2.
Proof.
  unfold bootstrap.
  pose proof (steps_transition connecting o) as H0.
  set (o0 := emit_status (set_status connecting o)) in *.
  destruct (process o0) as [p|].
  - destruct (killProcesses names true 1000 (sleep 500 w)) as [r w1].
    assert (Ho2 : steps o (deliver ev2 (deliver ev1 (record (Kill p) o0))))
      by eauto using steps_trans, steps_kill, steps_deliver.
    destruct r; simpl; eauto using steps_trans, steps_with_process.
  - destruct (killProcesses names true 1000 w) as [r w1].
    assert (Ho2 : steps o (deliver ev2 o0))
      by eauto using steps_trans, steps_deliver.
    destruct r; simpl; eauto using steps_trans, steps_with_process.
Qed.

(** [connect] ends either on the way (bootstrap or executable lookup
    failed) or by registering the listener with a fresh promise. *)
Lemma steps_connect ev1 ev2 o w :
  exists o1,
    steps o o1
    /\ ((connect names ev1 ev2 o w).1.2 = o1
        \/ (connect names ev1 ev2 o w).1.2
           = with_listener true (with_promise Pending o1)).
Proof.
  unfold connect.
  pose proof (steps_bootstrap ev1 ev2 o w) as Hb.
  destruct (bootstrap names ev1 ev2 o w) as [[r o1] w1]; simpl in Hb.
  destruct r; try (exists o1; split; [exact Hb | left; reflexivity]).
  destruct (execPath w1) as [path|];
    [| exists o1; split; [exact Hb | left; reflexivity]].
  destruct (useAuthFile o1 && negb (Js.truthy (authPath o1))).
  - pose proof (steps_createAuthFile o1 w1) as Hc.
    destruct (createAuthFile o1 w1) as [[p o2] w2]; simpl in Hc.
    unfold spawn; simpl.
    eexists. split; [| right; reflexivity].
    eapply steps_trans; [exact Hb |].
    eapply steps_trans; [exact Hc |].
    eapply steps_trans; [apply rtc_once, (prim_authPath (Some p)) |].
    apply steps_with_process.
  - unfold spawn; simpl.
    eexists. split; [| right; reflexivity].
    eapply steps_trans; [exact Hb | apply steps_with_process].
Qed.

End StepsSupervisor.

(** ** What the primitive steps keep *)

(** The emission discipline reads the status and the history only. *)
Lemma consistent_same o o' :
  status o' = status o -> history o' = history o ->
  emissionConsistent o -> emissionConsistent o'.
Proof. unfold emissionConsistent. intros -> ->. auto. Qed.

Lemma checkHistory_app h1 h2 :
  checkHistory (h1 ++ h2) = fold_left checkAction h2 (checkHistory h1).
Proof. unfold checkHistory. apply fold_left_app. Qed.

Lemma consistent_prim o o' :
  prim o o' -> emissionConsistent o -> emissionConsistent o'.
Proof.
  unfold emissionConsistent.
  destruct 1 as [s o|a o Ha| | |]; intros H; try exact H.
  - rewrite history_transition, status_transition, checkHistory_app, H.
    simpl. unfold Status_eqb. now rewrite bool_decide_eq_true_2.
  - rewrite history_record, status_record, checkHistory_app, H.
    destruct a; simpl in *; tauto.
Qed.

Lemma consistent_steps o o' :
  steps o o' -> emissionConsistent o -> emissionConsistent o'.
Proof. induction 1; eauto using consistent_prim. Qed.

(** Once the listener of [connect] is removed, nothing settles or
    re-registers it. *)
Lemma detached_prim o o' :
  prim o o' -> statusListener o = false ->
  statusListener o' = false /\ connectPromise o' = connectPromise o.
Proof.
  destruct 1 as [s o|a o Ha|p o|p o|d b o]; intros Hl;
    try (split; [exact Hl | reflexivity]).
  unfold emit_status. simpl. rewrite Hl. split; [exact Hl | reflexivity].
Qed.

Lemma detached_steps o o' :
  steps o o' -> statusListener o = false ->
  statusListener o' = false /\ connectPromise o' = connectPromise o.
Proof.
  induction 1 as [|o1 o2 o3 Hp _ IH]; [auto |].
  intros H. destruct (detached_prim _ _ Hp H) as [H1 H2].
  destruct (IH H1) as [H3 H4]. split; [exact H3 | congruence].
Qed.

Lemma statusEvents_app h1 h2 :
  statusEvents (h1 ++ h2) = (statusEvents h1 ++ statusEvents h2)%list.
Proof. unfold statusEvents. apply omap_app. Qed.



Lemma since_app o o' h :
  history o' = (history o ++ h)%list -> since o o' = h.
Proof. unfold since. intros ->. apply drop_app_length. Qed.

(** ** Emission consistency of sessions *)

Lemma consistent_new options : emissionConsistent (new options).
Proof. reflexivity. Qed.

Section ConsistentSupervisor.

Variable names : list string.

Lemma consistent_runOp s op :
  emissionConsistent s.1 -> emissionConsistent (runOp names s op).1.
Proof.
  destruct s as [o w]. simpl. intros H.
  destruct op; simpl.
  - destruct (steps_connect names ev1 ev2 o w) as (o1 & Hs & [E|E]).
    + destruct (connect names ev1 ev2 o w) as [[r o'] w']; simpl in *.
      subst o'. eauto using consistent_steps.
    + destruct (connect names ev1 ev2 o w) as [[r o'] w']; simpl in *.
      subst o'. apply (consistent_same o1); [reflexivity | reflexivity |].
      eauto using consistent_steps.
  - eauto using consistent_steps, steps_deliver.
  - unfold onTimeout. simpl.
    destruct (timeoutApplies (status o)).
    + pose proof (steps_disconnect names true 1000 ev1 ev2 ev3
                    (reject "Connection timeout" (with_listener false o)) w) as Hs.
      destruct (disconnect names true 1000 ev1 ev2 ev3 _ w) as [[r o'] w'].
      simpl in *. eapply consistent_steps; [exact Hs |].
      apply (consistent_same o); [| | exact H];
        unfold reject; simpl; destruct (connectPromise o); reflexivity.
    + exact H.
  - pose proof (steps_disconnect names graceful timeoutMs ev1 ev2 ev3 o w) as Hs.
    destruct (disconnect names graceful timeoutMs ev1 ev2 ev3 o w) as [[r o'] w'].
    eauto using consistent_steps.
  - pose proof (steps_bootstrap names ev1 ev2 o w) as Hs.
    destruct (bootstrap names ev1 ev2 o w) as [[r o'] w'].
    eauto using consistent_steps.
  - unfold cleanup. eauto using consistent_steps, steps_cleanupTempConfig.
  - exact H.
  - eauto using consistent_steps, steps_handleChunk.
  - eauto using consistent_steps, steps_handleLog.
  - eauto using consistent_steps, steps_handleAuth.
Qed.

Lemma consistent_runOps ops s :
  emissionConsistent s.1 -> emissionConsistent (runOps names ops s).1.
Proof.
  unfold runOps. revert s.
  induction ops as [|op ops IH]; intros s H; simpl; [exact H |].
  apply IH, consistent_runOp, H.
Qed.

End ConsistentSupervisor.

(** C9. In every session, whatever operations it goes through (connect
    with its bootstrap, the handlers of the child's events, the timer,
    disconnect, cleanup, log classification and auth responding, with any
    events arriving during their waits), every assignment of the status
    field is directly followed by the emission of a status event that
    carries the new value, and every status event carries the value the
    field has when it is emitted. *)
Theorem emission_consistency :
  forall (names : list string) (options : Options) (w : World) (ops : list Op),
    let o := (runOps names ops (new options, w)).1 in
    checkHistory (history o) = Some (status o, false).
Proof.
  intros names options w ops.
  apply (consistent_runOps names ops (new options, w)), consistent_new.
Qed.

(** ** The classifier *)






(** From [containsNone] to the single facts. *)
Lemma containsNone_cons line p ps :
  containsNone line (p :: ps) = true ->
  Js.includes line p = false /\ containsNone line ps = true.
Proof.
  unfold containsNone. simpl. intros H.
  apply andb_true_iff in H as [H1 H2]. apply negb_true_iff in H1. auto.
Qed.

Ltac split_containsNone H :=
  repeat match type of H with
         | containsNone _ (_ :: _) = true =>
             let H1 := fresh "Hn" in
             apply containsNone_cons in H as [H1 H]
         end.

(** C7. A line that contains [Successful ARP Flush on interface] and no
    other pattern of the table yields the transition to [connected] when
    the status before the line is [reconnecting], and only then: from every
    other status the line is logged, no status event is emitted and the
    status stays as it was. *)
Theorem arp_flush_connects_iff_reconnecting :
  forall (line : string) (o : OpenVpn),
    Js.includes line pat_arp = true ->
    containsNone line
      [ pat_push; pat_init; pat_exiting; pat_username; pat_password;
        pat_verification; pat_auth_failed; pat_peer; pat_sigusr1 ] = true ->
    (status o = reconnecting ->
       history (handleLog line o)
       = (history o ++ [EmitLog line; SetStatus connected; EmitStatus connected])%list
       /\ status (handleLog line o) = connected)
    /\ (status o <> reconnecting ->
       history (handleLog line o) = (history o ++ [EmitLog line])%list
       /\ status (handleLog line o) = status o).
Proof.
  intros line o Harp Hnone. split_containsNone Hnone.
  unfold handleLog.
  rewrite Hn, Hn0, Hn1, Hn2, Hn3, Hn4, Hn5, Hn6, Hn7, Harp. cbn [orb andb].
  unfold emit_log. rewrite status_record. split.
  - intros Hr. rewrite Hr. unfold Status_eqb.
    rewrite bool_decide_eq_true_2 by reflexivity.
    rewrite history_transition, status_transition, history_record.
    split; [now rewrite <- app_assoc | reflexivity].
  - intros Hne. unfold Status_eqb.
    rewrite bool_decide_eq_false_2 by exact Hne.
    rewrite history_record, status_record. split; reflexivity.
Qed.

Lemma arp_flush_connects_iff_reconnecting_witness :
  status (handleLog arpLine (with_status reconnecting alice)) = connected
  /\ status (handleLog arpLine alice) = stopped.
Proof.
  pose proof (arp_flush_connects_iff_reconnecting arpLine
                (with_status reconnecting alice) eq_refl eq_refl) as [H1 _].
  pose proof (arp_flush_connects_iff_reconnecting arpLine alice
                eq_refl eq_refl) as [_ H2].
  split.
  - exact (proj2 (H1 eq_refl)).
  - refine (proj2 (H2 _)). discriminate.
Defined.

(** C8, as the code has it. A line that contains
    [PUSH: Received control message] and no substring of a later entry of
    the table: when the status is already [connected] the line is logged,
    no status event is emitted and the status stays [connected]; from any
    other status the line yields exactly the transition to [connected]. *)
Theorem push_is_idempotent :
  forall (line : string) (o : OpenVpn),
    Js.includes line pat_push = true ->
    containsNone line
      [ pat_exiting; pat_username; pat_password; pat_verification;
        pat_auth_failed; pat_peer; pat_sigusr1; pat_arp ] = true ->
    (status o = connected ->
       history (handleLog line o) = (history o ++ [EmitLog line])%list
       /\ status (handleLog line o) = connected)
    /\ (status o <> connected ->
       history (handleLog line o)
       = (history o ++ [EmitLog line; SetStatus connected; EmitStatus connected])%list
       /\ status (handleLog line o) = connected).
Proof.
  intros line o Hpush Hnone. split_containsNone Hnone.
  unfold handleLog.
  rewrite Hn, Hn0, Hn1, Hn2, Hn3, Hn4, Hn5, Hn6, Hpush. cbn [orb andb].
  unfold emit_log. rewrite status_record. split.
  - intros Hc. rewrite Hc. unfold Status_eqb.
    rewrite bool_decide_eq_true_2 by reflexivity. cbn [negb].
    rewrite history_record, status_record. split; [reflexivity | exact Hc].
  - intros Hne. unfold Status_eqb.
    rewrite bool_decide_eq_false_2 by exact Hne. cbn [negb].
    rewrite history_transition, status_transition, history_record.
    split; [now rewrite <- app_assoc | reflexivity].
Qed.

Lemma push_is_idempotent_witness :
  let o := handleLog pushLine alice in
  status o = connected
  /\ history (handleLog pushLine o) = (history o ++ [EmitLog pushLine])%list.
Proof.
  pose proof (push_is_idempotent pushLine alice eq_refl eq_refl) as [_ H1].
  assert (Hc : status (handleLog pushLine alice) = connected).
  { refine (proj2 (H1 _)). discriminate. }
  pose proof (push_is_idempotent pushLine (handleLog pushLine alice)
                eq_refl eq_refl) as [H2 _].
  split; [exact Hc | exact (proj1 (H2 Hc))].
Defined.

(** C8 fails as stated: a line with the PUSH substring and the substring
    of a later entry changes the status of a connected session, and can
    even emit [connected] once more. *)
Lemma push_line_not_idempotent :
  let o := with_status connected alice in
  let line1 := "PUSH: Received control message: Exiting" in
  let line2 := "PUSH: Received control message SIGUSR1[soft,ping-restart] received, process restarting Successful ARP Flush on interface" in
  Js.includes line1 pat_push = true
  /\ status (handleLog line1 o) = disconnected
  /\ Js.includes line2 pat_push = true
  /\ statusEvents (history (handleLog line2 o)) = [reconnecting; connected].
Proof. vm_compute. repeat split; reflexivity. Qed.

(** ** The auth responder *)

Lemma truthy_Some u : u <> "" -> Js.truthy (Some u) = true.
Proof. destruct u; [congruence | reflexivity]. Qed.

Lemma handleAuth_write t o p u :
  process o = Some p ->
  (t = type_username /\ username o = Some u
   \/ t = type_password /\ password o = Some u) ->
  u <> "" ->
  handleAuth t o = record (StdinWrite p (u ++ Js.nl)) o.
Proof.
  intros Hp [[-> Hu]|[-> Hu]] Hne; unfold handleAuth;
    rewrite Hu, (truthy_Some u Hne); unfold stdin_write; now rewrite Hp.
Qed.

Lemma handleAuth_fail t o :
  (t = type_username /\ Js.truthy (username o) = false
   \/ t = type_password /\ Js.truthy (password o) = false) ->
  handleAuth t o = emit_status (set_status auth_failed o).
Proof.
  intros [[-> Hu]|[-> Hu]]; unfold handleAuth; now rewrite Hu.
Qed.

(** Without a child process the optional chaining of
    [this.process?.stdin?.write] drops the write. *)
Lemma handleAuth_without_child t o :
  process o = None ->
  Js.truthy (username o) = true -> Js.truthy (password o) = true ->
  handleAuth t o = o.
Proof.
  intros Hp Hu Hw. unfold handleAuth, stdin_write.
  destruct t; rewrite ?Hu, ?Hw, Hp; reflexivity.
Qed.

(** C6. When the prompt for the user name has been seen (the status is
    [auth_username]) and a child process is held: if a user name is
    configured, the responder writes the user name followed by a line feed
    to the input of the child, and nothing else happens, so the status is
    still [auth_username]; if none is configured, nothing is written and the
    status goes to [auth_failed], which is emitted.  The same for the
    password prompt and the password. *)
Theorem auth_responder :
  forall (o : OpenVpn) (p : ChildProcess),
    process o = Some p ->
    (status o = auth_username ->
       (forall u, username o = Some u -> u <> "" ->
          history (handleAuth type_username o)
          = (history o ++ [StdinWrite p (u ++ Js.nl)])%list
          /\ status (handleAuth type_username o) = auth_username)
       /\ (Js.truthy (username o) = false ->
          history (handleAuth type_username o)
          = (history o ++ [SetStatus auth_failed; EmitStatus auth_failed])%list
          /\ status (handleAuth type_username o) = auth_failed))
    /\ (status o = auth_password ->
       (forall u, password o = Some u -> u <> "" ->
          history (handleAuth type_password o)
          = (history o ++ [StdinWrite p (u ++ Js.nl)])%list
          /\ status (handleAuth type_password o) = auth_password)
       /\ (Js.truthy (password o) = false ->
          history (handleAuth type_password o)
          = (history o ++ [SetStatus auth_failed; EmitStatus auth_failed])%list
          /\ status (handleAuth type_password o) = auth_failed)).
Proof.
  intros o p Hp. split; intros Hs; split.
  - intros u Hu Hne.
    rewrite (handleAuth_write type_username o p u Hp) by auto.
    rewrite history_record, status_record. auto.
  - intros Hu. rewrite handleAuth_fail by auto.
    rewrite history_transition, status_transition. auto.
  - intros u Hu Hne.
    rewrite (handleAuth_write type_password o p u Hp) by auto.
    rewrite history_record, status_record. auto.
  - intros Hu. rewrite handleAuth_fail by auto.
    rewrite history_transition, status_transition. auto.
Qed.

(** The scenario of the specification: the line
    ["2024-01-01 Enter Auth Username:"] with the user name ["alice"]. *)
Lemma auth_responder_witness :
  let line := "2024-01-01 Enter Auth Username:" in
  let o := with_process (Some 7%nat) alice in
  let prompted := emit_status (set_status auth_username (emit_log line o)) in
  handleLog line o = handleAuth type_username prompted
  /\ history (handleAuth type_username prompted)
     = (history prompted ++ [StdinWrite 7%nat ("alice" ++ Js.nl)])%list
  /\ status (handleAuth type_username prompted) = auth_username
  /\ status (handleAuth type_password
               (emit_status (set_status auth_password o))) = auth_failed.
Proof.
  intros line o prompted.
  pose proof (auth_responder prompted 7%nat eq_refl) as [Hu _].
  pose proof (auth_responder (emit_status (set_status auth_password o)) 7%nat
                eq_refl) as [_ Hw].
  destruct (Hu eq_refl) as [H1 _].
  destruct (Hw eq_refl) as [_ H2].
  destruct (H1 "alice" eq_refl ltac:(discriminate)) as [H3 H4].
  split; [reflexivity |].
  split; [exact H3 |].
  split; [exact H4 | exact (proj2 (H2 eq_refl))].
Defined.

(** ** The chunk handler *)

Lemma split_noLF s : noLF s = true -> Js.split s = [s].
Proof.
  induction s as [|c s IH]; [reflexivity |].
  simpl. intros H. apply andb_true_iff in H as [Hc Hs].
  apply negb_true_iff in Hc. rewrite Hc, (IH Hs).
  destruct s as [|c2 s']; [reflexivity |].
  simpl in Hs. apply andb_true_iff in Hs as [Hc2 _].
  apply negb_true_iff in Hc2. rewrite Hc2, andb_false_r. reflexivity.
Qed.

Lemma consHead_app c ps qs :
  ps <> [] -> Js.consHead c (ps ++ qs) = (Js.consHead c ps ++ qs)%list.
Proof. destruct ps; [congruence | reflexivity]. Qed.

Lemma consHead_nonempty c ps : Js.consHead c ps <> [].
Proof. destruct ps; discriminate. Qed.

Lemma split_cons2 c1 c2 s :
  Js.split (String c1 (String c2 s))
  = if Ascii.eqb c1 Js.LF then "" :: Js.split (String c2 s)
    else if Ascii.eqb c1 Js.CR && Ascii.eqb c2 Js.LF then "" :: Js.split s
         else Js.consHead c1 (Js.split (String c2 s)).
Proof. reflexivity. Qed.

Lemma split_LF_pair s : cutsAt s /\ forall c, cutsAt (String c s).
Proof.
  induction s as [|c s [IH0 IH1]].
  - split.
    + exists [""]. split; [discriminate | reflexivity].
    + intros c. unfold cutsAt.
      change (fun t => String c "" ++ Js.nl ++ t)
        with (fun t => String c (String Js.LF t)).
      destruct (Ascii.eqb c Js.LF) eqn:Ec.
      * exists [""; ""]. split; [discriminate |].
        intros t. change (String c "" ++ Js.nl ++ t) with (String c (String Js.LF t)).
        rewrite split_cons2, Ec. reflexivity.
      * destruct (Ascii.eqb c Js.CR) eqn:Er.
        -- exists [""]. split; [discriminate |].
           intros t. change (String c "" ++ Js.nl ++ t) with (String c (String Js.LF t)).
           rewrite split_cons2, Ec, Er. reflexivity.
        -- exists [String c ""]. split; [discriminate |].
           intros t. change (String c "" ++ Js.nl ++ t) with (String c (String Js.LF t)).
           rewrite split_cons2, Ec, Er. reflexivity.
  - split; [apply IH1 |].
    intros c1. unfold cutsAt.
    destruct (Ascii.eqb c1 Js.LF) eqn:Ec.
    + destruct (IH1 c) as (ps & Hps & H).
      exists ("" :: ps). split; [discriminate |].
      intros t. specialize (H t).
      change (String c1 (String c s) ++ Js.nl ++ t)
        with (String c1 (String c (s ++ Js.nl ++ t))).
      change (String c s ++ Js.nl ++ t) with (String c (s ++ Js.nl ++ t)) in H.
      rewrite split_cons2, Ec, H. reflexivity.
    + destruct (Ascii.eqb c1 Js.CR && Ascii.eqb c Js.LF) eqn:Er.
      * destruct IH0 as (ps & Hps & H).
        exists ("" :: ps). split; [discriminate |].
        intros t.
        change (String c1 (String c s) ++ Js.nl ++ t)
          with (String c1 (String c (s ++ Js.nl ++ t))).
        rewrite split_cons2, Ec, Er, H. reflexivity.
      * destruct (IH1 c) as (ps & Hps & H).
        exists (Js.consHead c1 ps). split; [apply consHead_nonempty |].
        intros t. specialize (H t).
        change (String c1 (String c s) ++ Js.nl ++ t)
          with (String c1 (String c (s ++ Js.nl ++ t))).
        change (String c s ++ Js.nl ++ t) with (String c (s ++ Js.nl ++ t)) in H.
        rewrite split_cons2, Ec, Er, H. now apply consHead_app.
Qed.




Lemma split_LF s : cutsAt s.
Proof. apply split_LF_pair. Qed.

Lemma append_nil_r s : s ++ "" = s.
Proof.
  induction s as [|c s IH]; [reflexivity |].
  change (String c (s ++ "") = String c s). now rewrite IH.
Qed.

Lemma append_assoc s t u : (s ++ t) ++ u = s ++ t ++ u.
Proof.
  induction s as [|c s IH]; [reflexivity |].
  change (String c ((s ++ t) ++ u) = String c (s ++ t ++ u)). now rewrite IH.
Qed.





(** ** The two credential files *)

Lemma files_writeFileSync p c w : files (writeFileSync p c w) !! p = Some c.
Proof. unfold writeFileSync. simpl. apply lookup_insert_eq. Qed.

Lemma noLF_append s t : noLF s = true -> noLF t = true -> noLF (s ++ t) = true.
Proof.
  intros Hs Ht. induction s as [|c s IH]; [exact Ht |].
  change (noLF (String c (s ++ t)) = true).
  simpl in *. apply andb_true_iff in Hs as [Hc Hs].
  rewrite Hc. simpl. auto.
Qed.

Lemma createFromConfig_authFile options w :
  cfg_useAuthFile options = true ->
  files (createFromConfig options w).2 !! (createFromConfig options w).1.2
  = Some (Js.show (cfg_username options) ++ ":" ++ Js.show (cfg_password options)).
Proof.
  intros Hu. unfold createFromConfig.
  destruct (random _) as [r1 w1]. destruct (random w1) as [r2 w2].
  rewrite Hu. simpl. apply lookup_insert_eq.
Qed.

Lemma createAuthFile_authFile o w :
  files (createAuthFile o w).2 !! (createAuthFile o w).1.1
  = Some (Js.show (username o) ++ Js.nl ++ Js.show (password o)).
Proof.
  unfold createAuthFile.
  destruct (negb (Js.truthy (tempDir o)));
    destruct (random _) as [r w1]; simpl; apply lookup_insert_eq.
Qed.

(** C10. With [useAuthFile], the credential file that [createFromConfig]
    writes holds the user name, a colon and the password (one line when
    neither contains a line feed); the credential file that [createAuthFile]
    writes at connect time holds the user name, a line feed and the
    password.  For every pair of credentials the two contents differ. *)
Theorem credential_files_differ :
  forall (options : ConfigOptions) (o : OpenVpn) (w : World),
    let byConfig :=
      Js.show (cfg_username options) ++ ":" ++ Js.show (cfg_password options) in
    (cfg_useAuthFile options = true ->
       files (createFromConfig options w).2 !! (createFromConfig options w).1.2
       = Some byConfig)
    /\ files (createAuthFile o w).2 !! (createAuthFile o w).1.1
       = Some (Js.show (username o) ++ Js.nl ++ Js.show (password o))
    /\ (forall u p : option string,
          Js.show u ++ ":" ++ Js.show p <> Js.show u ++ Js.nl ++ Js.show p)
    /\ (noLF (Js.show (cfg_username options)) = true ->
        noLF (Js.show (cfg_password options)) = true ->
        Js.split byConfig = [byConfig]).
Proof.
  intros options o w byConfig. repeat split.
  - apply createFromConfig_authFile.
  - apply createAuthFile_authFile.
  - intros u p H. apply String.app_inj in H. discriminate H.
  - intros Hu Hp. apply split_noLF. subst byConfig.
    apply noLF_append; [exact Hu |]. apply (noLF_append ":"); [reflexivity | exact Hp].
Qed.

Lemma credential_files_differ_witness :
  files (createFromConfig bob calm).2 !! (createFromConfig bob calm).1.2
  = Some "bob:secret"
  /\ Js.split "bob:secret" = ["bob:secret"].
Proof.
  pose proof (credential_files_differ bob alice calm) as (H1 & _ & _ & H2).
  split; [exact (H1 eq_refl) | exact (H2 eq_refl eq_refl)].
Defined.

(** ** The escalating terminator *)

Section TerminatorFacts.

Variable names : list string.

Lemma now_getProcesses w : now (getProcesses names w).2 = now w.
Proof.
  unfold getProcesses, psList. destruct (psScript w); reflexivity.
Qed.

(** The polling loop ends within the fuel that its clock allows. *)
Lemma poll_enough fuel startTime timeoutMs w :
  timeoutMs - (now w - startTime) <= 500 * Z.of_nat fuel ->
  (poll names (S fuel) startTime timeoutMs w).1 <> PollFuel.
Proof.
  revert w. induction fuel as [|fuel IH]; intros w H.
  - simpl. destruct (now w - startTime <? timeoutMs) eqn:E; [| discriminate].
    apply Z.ltb_lt in E. lia.
  - cbn [poll]. destruct (now w - startTime <? timeoutMs) eqn:E; [| discriminate].
    pose proof (now_getProcesses (sleep 500 w)) as Hn.
    destruct (getProcesses names (sleep 500 w)) as [ps w1]. simpl in Hn.
    destruct (length ps =? 0)%nat; [discriminate |].
    apply IH. rewrite Hn. simpl. lia.
Qed.

(** More fuel than needed changes nothing. *)
Lemma poll_more fuel fuel' startTime timeoutMs w :
  (poll names fuel startTime timeoutMs w).1 <> PollFuel ->
  (fuel <= fuel')%nat ->
  poll names fuel' startTime timeoutMs w = poll names fuel startTime timeoutMs w.
Proof.
  revert fuel' w. induction fuel as [|fuel IH]; intros fuel' w H Hle.
  - simpl in H. congruence.
  - destruct fuel' as [|fuel']; [lia |].
    cbn [poll] in *. destruct (now w - startTime <? timeoutMs); [| reflexivity].
    destruct (getProcesses names (sleep 500 w)) as [ps w1].
    destruct (length ps =? 0)%nat; [reflexivity |].
    apply IH; [exact H | lia].
Qed.

Lemma pollFuel_enough timeoutMs w :
  (poll names (pollFuel timeoutMs) (now w) timeoutMs w).1 <> PollFuel.
Proof.
  unfold pollFuel. apply poll_enough.
  assert (H : timeoutMs < 500 * (timeoutMs / 500 + 1)).
  { pose proof (Z.mul_succ_div_gt timeoutMs 500 ltac:(lia)). lia. }
  destruct (Z_le_gt_dec 0 (timeoutMs / 500 + 1)) as [Hp|Hn].
  - rewrite Z2Nat.id by exact Hp. lia.
  - lia.
Qed.

Lemma forceKill_settled w : settled (forceKill names w).
Proof.
  unfold forceKill, settled.
  destruct (getProcesses names w) as [ps w1].
  destruct (if (0 <? length ps)%nat then fkillEach true ps w1 else (true, w1))
    as [ok w2].
  destruct ok; [left; reflexivity |].
  destruct (getProcesses names (sleep 500 w2)) as [ps' w3].
  destruct (0 <? length ps')%nat; [| left; reflexivity].
  unfold fkillAll. destruct (next_fkill w3) as [ok w4].
  destruct ok; [left; reflexivity |].
  right. split; [reflexivity |].
  exists (map pid ps'). simpl. apply last_snoc.
Qed.

Lemma killProcesses_fuel_settled fuel graceful timeoutMs w :
  (pollFuel timeoutMs <= fuel)%nat ->
  settled (killProcesses_fuel names fuel graceful timeoutMs w)
  /\ killProcesses_fuel names fuel graceful timeoutMs w
     = killProcesses names graceful timeoutMs w.
Proof.
  intros Hf. unfold killProcesses, killProcesses_fuel.
  destruct (getProcesses names w) as [ps w1].
  destruct (length ps =? 0)%nat; [split; [left |]; reflexivity |].
  destruct graceful; [| split; [apply forceKill_settled | reflexivity]].
  destruct (fkillEach false ps w1) as [ok w2].
  destruct ok; [| split; [apply forceKill_settled | reflexivity]].
  pose proof (pollFuel_enough timeoutMs w2) as He.
  rewrite (poll_more _ fuel _ _ _ He Hf).
  destruct (poll names (pollFuel timeoutMs) (now w2) timeoutMs w2) as [r w3].
  destruct r; simpl in He; try congruence.
  - split; [left |]; reflexivity.
  - split; [apply forceKill_settled | reflexivity].
Qed.

End TerminatorFacts.




(** ** The timer of connect *)








(** ** Disconnect *)

Lemma status_cleanupTempConfig o w : status (cleanupTempConfig o w).1 = status o.
Proof.
  unfold cleanupTempConfig.
  repeat (case_match; simpl; try reflexivity).
Qed.

Lemma notTerminal_disconnecting : notTerminal disconnecting = false.
Proof. reflexivity. Qed.

Lemma status_disconnect_begin graceful o :
  status o <> disconnected -> status o <> stopped ->
  status (disconnect_begin graceful o) = disconnecting.
Proof.
  intros H1 H2. unfold disconnect_begin.
  assert (H : status (if notTerminal (status o)
                      then emit_status (set_status disconnecting o) else o)
              = disconnecting).
  { destruct (notTerminal (status o)) eqn:E; [apply status_transition |].
    destruct (status o); try reflexivity; try discriminate E; congruence. }
  repeat case_match; rewrite ?status_record; exact H.
Qed.

(** C2 fails in the code. When no event of the child arrives while
    [disconnect] runs and [killProcesses] returns, a session that was
    neither [disconnected] nor [stopped] ends [disconnecting]: the second
    guard of [disconnect] excludes the status that the first one has just
    set, so the transition to [disconnected] is skipped. *)
Theorem disconnect_ends_disconnecting :
  forall (names : list string) (graceful : bool) (timeoutMs : Z)
         (o : OpenVpn) (w : World),
    status o <> disconnected ->
    status o <> stopped ->
    (disconnect names graceful timeoutMs [] [] [] o w).1.1 = Returned ->
    status (disconnect names graceful timeoutMs [] [] [] o w).1.2 = disconnecting.
Proof.
  intros names graceful timeoutMs o w H1 H2.
  unfold disconnect.
  pose proof (status_disconnect_begin graceful o H1 H2) as Hb.
  set (o0 := disconnect_begin graceful o) in *.
  assert (He : forall w1, status (disconnect_end [] o0 w1).1 = disconnecting).
  { intros w1. unfold disconnect_end.
    change (status (with_process None o0)) with (status o0).
    rewrite Hb, notTerminal_disconnecting.
    pose proof (status_cleanupTempConfig (with_process None o0) w1) as Hc.
    destruct (cleanupTempConfig (with_process None o0) w1) as [o1 w2].
    simpl in *. rewrite Hc. exact Hb. }
  destruct (bool_decide (is_Some (process o0)) && graceful); simpl.
  - destruct (killProcesses names graceful timeoutMs _) as [r w1].
    destruct r; simpl; try discriminate. intros _.
    specialize (He w1). destruct (disconnect_end [] o0 w1). exact He.
  - destruct (killProcesses names graceful timeoutMs _) as [r w1].
    destruct r; simpl; try discriminate. intros _.
    specialize (He w1). destruct (disconnect_end [] o0 w1). exact He.
Qed.

(** [connect] fails after its bootstrap, no child is ever spawned, and
    the [disconnect] that follows leaves the session [disconnecting]. *)
Lemma disconnect_ends_disconnecting_witness :
  let failed := connect executables [] [] alice bare in
  failed.1.1 = Raised
  /\ status failed.1.2 = connecting
  /\ process failed.1.2 = None
  /\ status (disconnect executables true 1000 [] [] [] failed.1.2 failed.2).1.2
     = disconnecting.
Proof.
  intros failed.
  split; [reflexivity |]. split; [reflexivity |]. split; [reflexivity |].
  apply (disconnect_ends_disconnecting executables true 1000 failed.1.2 failed.2).
  - vm_compute. discriminate.
  - vm_compute. discriminate.
  - vm_compute. reflexivity.
Defined.

(** What [disconnect] does keep of C2: a session that is [stopped] or
    [disconnected] stays so, and no status event is emitted. *)
Lemma disconnect_keeps_terminal names graceful timeoutMs o w :
  status o = stopped \/ status o = disconnected ->
  let r := disconnect names graceful timeoutMs [] [] [] o w in
  r.1.1 = Returned ->
  status r.1.2 = status o /\ statusEvents (history r.1.2) = statusEvents (history o).
Proof.
  intros Ht r. subst r. unfold disconnect, disconnect_begin.
  assert (Hn : notTerminal (status o) = false)
    by (destruct Ht as [->| ->]; reflexivity).
  rewrite Hn.
  set (o0 := match process o with
             | Some p => if graceful then record (Kill p) o else o
             | None => o
             end).
  assert (H0 : status o0 = status o
               /\ statusEvents (history o0) = statusEvents (history o)).
  { subst o0. repeat case_match; split; try reflexivity.
    rewrite history_record, statusEvents_app. simpl. apply app_nil_r. }
  destruct H0 as [Hs0 Hh0].
  assert (He : forall w1,
             status (disconnect_end [] o0 w1).1 = status o
             /\ statusEvents (history (disconnect_end [] o0 w1).1)
                = statusEvents (history o)).
  { intros w1. unfold disconnect_end.
    change (status (with_process None o0)) with (status o0).
    rewrite Hs0, Hn.
    unfold cleanupTempConfig.
    repeat (case_match; simplify_eq; simpl);
      rewrite ?statusEvents_app; simpl; rewrite ?app_nil_r; auto. }
  destruct (bool_decide (is_Some (process o0)) && graceful); simpl.
  - destruct (killProcesses names graceful timeoutMs _) as [r w1].
    destruct r; simpl; try discriminate. intros _.
    specialize (He w1). destruct (disconnect_end [] o0 w1). exact He.
  - destruct (killProcesses names graceful timeoutMs _) as [r w1].
    destruct r; simpl; try discriminate. intros _.
    specialize (He w1). destruct (disconnect_end [] o0 w1). exact He.
Qed.

(** * Further properties *)

(** ** What the handlers do and never do *)

Lemma hsteps_refl P Q o : hsteps P Q o o.
Proof. apply rtc_refl. Qed.

Lemma hsteps_trans P Q o1 o2 o3 :
  hsteps P Q o1 o2 -> hsteps P Q o2 o3 -> hsteps P Q o1 o3.
Proof. apply rtc_trans. Qed.

Lemma hprim_mono (P P' : Status -> Prop) (Q Q' : Action -> Prop) o o' :
  (forall s, P s -> P' s) -> (forall a, Q a -> Q' a) ->
  hprim P Q o o' -> hprim P' Q' o o'.
Proof. intros HP HQ []; constructor; auto. Qed.

Lemma hsteps_mono (P P' : Status -> Prop) (Q Q' : Action -> Prop) o o' :
  (forall s, P s -> P' s) -> (forall a, Q a -> Q' a) ->
  hsteps P Q o o' -> hsteps P' Q' o o'.
Proof.
  intros HP HQ. induction 1 as [|o1 o2 o3 H _ IH]; [apply rtc_refl |].
  eapply rtc_l; [eapply hprim_mono; eauto | exact IH].
Qed.

Lemma hsteps_transition (P : Status -> Prop) Q s o :
  P s -> hsteps P Q o (emit_status (set_status s o)).
Proof. intros H. apply rtc_once. now constructor. Qed.

Lemma hsteps_record P (Q : Action -> Prop) a o :
  match a with SetStatus _ | EmitStatus _ => False | _ => True end ->
  Q a -> hsteps P Q o (record a o).
Proof. intros H1 H2. apply rtc_once. now constructor. Qed.

Lemma sameSettings_refl o : sameSettings o o.
Proof. repeat split. Qed.

Lemma sameSettings_trans o1 o2 o3 :
  sameSettings o1 o2 -> sameSettings o2 o3 -> sameSettings o1 o3.
Proof. unfold sameSettings. intuition congruence. Qed.

Lemma sameSettings_emit_status o : sameSettings o (emit_status o).
Proof.
  unfold emit_status, run_statusListener, resolve, reject.
  repeat case_match; repeat split.
Qed.

Lemma hprim_shape P Q o o' :
  hprim P Q o o' ->
  sameSettings o o'
  /\ exists h, history o' = (history o ++ h)%list /\ Forall (allowed P Q) h.
Proof.
  destruct 1 as [s o Hs|a o Ha Hq].
  - split.
    + eapply sameSettings_trans; [| apply sameSettings_emit_status].
      repeat split.
    + exists [SetStatus s; EmitStatus s].
      split; [apply history_transition |].
      repeat constructor; exact Hs.
  - split; [repeat split |].
    exists [a]. split; [reflexivity |].
    constructor; [| constructor]. destruct a; simpl in *; tauto.
Qed.

Lemma hsteps_shape P Q o o' :
  hsteps P Q o o' ->
  sameSettings o o'
  /\ exists h, history o' = (history o ++ h)%list /\ Forall (allowed P Q) h.
Proof.
  induction 1 as [o|o1 o2 o3 H _ [S2 (h2 & E2 & F2)]].
  - split; [apply sameSettings_refl |].
    exists []. split; [symmetry; apply app_nil_r | constructor].
  - destruct (hprim_shape _ _ _ _ H) as [S1 (h1 & E1 & F1)].
    split; [eapply sameSettings_trans; eauto |].
    exists (h1 ++ h2)%list. split.
    + rewrite E2, E1. symmetry. apply app_assoc.
    + apply Forall_app. auto.
Qed.

Lemma hsteps_handleAuth (P : Status -> Prop) t o :
  P auth_failed ->
  hsteps P (credentialWrite (username o) (password o)) o (handleAuth t o).
Proof.
  intros Hp. unfold handleAuth, stdin_write.
  destruct t; repeat case_match;
    try apply hsteps_refl; try (apply hsteps_transition; exact Hp);
    apply hsteps_record; simpl; auto.
Qed.

Lemma hsteps_fire (P : Status -> Prop) e o :
  P auth_failed -> P (target e) ->
  hsteps P (credentialWrite (username o) (password o)) o (fire e o).
Proof.
  intros Hf Ht. unfold fire. destruct (sideEffect e).
  - eapply hsteps_trans; [apply hsteps_transition, Ht |].
    pose proof (hsteps_handleAuth P a (emit_status (set_status (target e) o)) Hf) as H.
    destruct (sameSettings_emit_status (set_status (target e) o))
      as (_ & Hu & Hw & _).
    simpl in Hu, Hw. rewrite Hu, Hw in H. exact H.
  - apply hsteps_transition, Ht.
Qed.

Lemma hsteps_fold_applyEntry (P : Status -> Prop) line tbl u pw o :
  P auth_failed -> Forall (fun e => P (target e)) tbl ->
  username o = u -> password o = pw ->
  hsteps P (credentialWrite u pw) o (fold_left (applyEntry line) tbl o).
Proof.
  intros Hf Ht. revert o.
  induction Ht as [|e tbl He Ht IH]; intros o Hu Hw; simpl.
  - apply hsteps_refl.
  - assert (H1 : hsteps P (credentialWrite u pw) o (applyEntry line o e)).
    { unfold applyEntry. case_match; [| apply hsteps_refl].
      subst u pw. now apply hsteps_fire. }
    eapply hsteps_trans; [exact H1 |].
    destruct (hsteps_shape _ _ _ _ H1) as [(_ & Hu' & Hw' & _) _].
    apply IH; congruence.
Qed.

Lemma table_targets : Forall (fun e => classifierStatus (target e)) table.
Proof. unfold table, classifierStatus. repeat constructor; simpl; tauto. Qed.

Lemma hsteps_handleLog_tail line o :
  hsteps classifierStatus (credentialWrite (username o) (password o))
    (emit_log line o) (handleLog line o).
Proof.
  rewrite handleLog_applyAll. unfold applyAll.
  apply hsteps_fold_applyEntry;
    [unfold classifierStatus; tauto | apply table_targets | reflexivity | reflexivity].
Qed.

Lemma hsteps_handleLog line o :
  hsteps classifierStatus
    (fun a => a = EmitLog line \/ credentialWrite (username o) (password o) a)
    o (handleLog line o).
Proof.
  eapply hsteps_trans.
  - apply (hsteps_record _ _ (EmitLog line)); [exact I | left; reflexivity].
  - eapply hsteps_mono; [| | apply hsteps_handleLog_tail]; simpl; auto.
Qed.

Lemma hsteps_handleLines lines u pw o :
  username o = u -> password o = pw ->
  hsteps classifierStatus (logOrCredential u pw) o (handleLines lines o).
Proof.
  unfold handleLines. revert o.
  induction lines as [|l lines IH]; intros o Hu Hw; simpl.
  - apply hsteps_refl.
  - assert (H1 : hsteps classifierStatus (logOrCredential u pw) o
                   (if Js.truthyStr (Js.trim l) then handleLog l o else o)).
    { case_match; [| apply hsteps_refl].
      eapply hsteps_mono; [| | apply hsteps_handleLog]; [auto |].
      subst u pw. intros a [->|Hc]; [left; exact I | right; exact Hc]. }
    eapply hsteps_trans; [exact H1 |].
    destruct (hsteps_shape _ _ _ _ H1) as [(_ & Hu' & Hw' & _) _].
    apply IH; congruence.
Qed.

Lemma hsteps_handleEvent e u pw o :
  username o = u -> password o = pw ->
  hsteps handlerStatus (logOrCredential u pw) o (handleEvent e o).
Proof.
  intros Hu Hw. destruct e; simpl.
  - eapply hsteps_mono; [| | apply (hsteps_handleLines _ u pw); assumption];
      [intros s; left; assumption | auto].
  - apply hsteps_transition. left. unfold classifierStatus. tauto.
  - eapply hsteps_trans; [apply hsteps_transition; right; reflexivity |].
    apply hsteps_record; [exact I | left; exact I].
Qed.

Lemma hsteps_deliver evs u pw o :
  username o = u -> password o = pw ->
  hsteps handlerStatus (logOrCredential u pw) o (deliver evs o).
Proof.
  unfold deliver. revert o.
  induction evs as [|e evs IH]; intros o Hu Hw; simpl.
  - apply hsteps_refl.
  - pose proof (hsteps_handleEvent e u pw o Hu Hw) as H1.
    eapply hsteps_trans; [exact H1 |].
    destruct (hsteps_shape _ _ _ _ H1) as [(_ & Hu' & Hw' & _) _].
    apply IH; congruence.
Qed.

Lemma hsteps_cleanupTempConfig o w :
  hsteps (fun _ => False) isEmitLog o (cleanupTempConfig o w).1.
Proof.
  assert (L : forall l o', hsteps (fun _ => False) isEmitLog o' (emit_log l o'))
    by (intros; apply hsteps_record; exact I).
  unfold cleanupTempConfig.
  repeat (case_match; simpl; try apply hsteps_refl; try apply L).
  all: try (eapply hsteps_trans; [apply L | apply L]).
Qed.

Lemma statusEvents_allowed (P : Status -> Prop) Q h :
  Forall (allowed P Q) h -> Forall P (statusEvents h).
Proof.
  induction 1 as [|a h Ha _ IH]; [constructor |].
  destruct a; simpl in *; auto.
Qed.

Lemma stdinWrites_allowed P u pw h :
  Forall (allowed P (logOrCredential u pw)) h ->
  Forall (fun d => d = Js.show u ++ Js.nl \/ d = Js.show pw ++ Js.nl)
    (stdinWrites h).
Proof.
  induction 1 as [|a h Ha _ IH]; [constructor |].
  destruct a; simpl in *; auto.
  constructor; [| exact IH].
  destruct Ha as [[]|Ha]; exact Ha.
Qed.

(** X1. Whatever the child sends (chunks of output, [close], [error]),
    the handlers change neither the configuration nor the credentials nor
    the process handle of the session; the only statuses they emit are the
    seven of the classifier and [error]; and the only texts they write to
    the child's input are the user name and the password, each followed by
    a line feed. *)
Theorem handlers_stay_within_bounds :
  forall (evs : list ProcEvent) (o : OpenVpn),
    sameSettings o (deliver evs o)
    /\ Forall handlerStatus (statusEvents (since o (deliver evs o)))
    /\ Forall (fun d => d = Js.show (username o) ++ Js.nl
                        \/ d = Js.show (password o) ++ Js.nl)
         (stdinWrites (since o (deliver evs o))).
Proof.
  intros evs o.
  destruct (hsteps_shape _ _ _ _
              (hsteps_deliver evs (username o) (password o) o eq_refl eq_refl))
    as [Hs (h & E & F)].
  rewrite (since_app _ _ _ E).
  split; [exact Hs |].
  split; [eapply statusEvents_allowed; exact F |].
  eapply stdinWrites_allowed; exact F.
Qed.

(** X2. A line that contains none of the substrings of the table is
    forwarded as a log event and nothing else happens: no transition, no
    write, the session is otherwise as before. *)
Theorem handleLog_without_pattern :
  forall (line : string) (o : OpenVpn),
    containsNone line patterns = true ->
    handleLog line o = emit_log line o.
Proof.
  intros line o Hnone. unfold patterns in Hnone. split_containsNone Hnone.
  unfold handleLog.
  rewrite Hn, Hn0, Hn1, Hn2, Hn3, Hn4, Hn5, Hn6, Hn7, Hn8. reflexivity.
Qed.

Lemma handleLog_without_pattern_witness :
  handleLog "TLS: Initial packet from [AF_INET]10.0.0.1:1194" alice
  = emit_log "TLS: Initial packet from [AF_INET]10.0.0.1:1194" alice.
Proof.
  exact (handleLog_without_pattern
           "TLS: Initial packet from [AF_INET]10.0.0.1:1194" alice eq_refl).
Defined.

Lemma stdinWrites_app h1 h2 :
  stdinWrites (h1 ++ h2) = (stdinWrites h1 ++ stdinWrites h2)%list.
Proof. unfold stdinWrites. apply omap_app. Qed.

Lemma logEvents_app h1 h2 :
  logEvents (h1 ++ h2) = (logEvents h1 ++ logEvents h2)%list.
Proof. unfold logEvents. apply omap_app. Qed.

Lemma fold_applyEntry_no_write line tbl o :
  Forall (fun e => matches line e = true -> sideEffect e = None) tbl ->
  stdinWrites (history (fold_left (applyEntry line) tbl o))
  = stdinWrites (history o).
Proof.
  intros H. revert o. induction H as [|e tbl He _ IH]; intros o; simpl.
  - reflexivity.
  - rewrite IH. unfold applyEntry.
    destruct (matches line e) eqn:Em; [| reflexivity].
    destruct (guard e (status o)); [| reflexivity].
    unfold fire. rewrite (He eq_refl). cbn [andb].
    rewrite history_transition, stdinWrites_app.
    simpl. apply app_nil_r.
Qed.

(** X3. The credentials are written only in answer to a prompt: a line
    that contains neither [Enter Auth Username:] nor [Enter Auth Password:]
    causes no write to the child's input, whatever else it contains. *)
Theorem handleLog_writes_only_on_prompt :
  forall (line : string) (o : OpenVpn),
    Js.includes line pat_username = false ->
    Js.includes line pat_password = false ->
    stdinWrites (since o (handleLog line o)) = [].
Proof.
  intros line o Hu Hp.
  assert (E : stdinWrites (history (handleLog line o)) = stdinWrites (history o)).
  { rewrite handleLog_applyAll. unfold applyAll.
    rewrite fold_applyEntry_no_write.
    - unfold emit_log. rewrite history_record, stdinWrites_app. simpl.
      apply app_nil_r.
    - unfold table, matches.
      repeat (apply Forall_cons_2;
              [cbn [existsb substrings sideEffect]; rewrite ?Hu, ?Hp;
               cbn [orb]; intros; congruence |]).
      apply Forall_nil_2. }
  destruct (hsteps_shape _ _ _ _ (hsteps_handleLog line o)) as [_ (h & Eh & _)].
  rewrite (since_app _ _ _ Eh).
  rewrite Eh, stdinWrites_app in E.
  apply (app_inv_head (stdinWrites (history o))). now rewrite app_nil_r.
Qed.

Lemma handleLog_writes_only_on_prompt_witness :
  stdinWrites (since carol (handleLog "AUTH: Received control message: AUTH_FAILED" carol))
  = [].
Proof.
  exact (handleLog_writes_only_on_prompt
           "AUTH: Received control message: AUTH_FAILED" carol eq_refl eq_refl).
Defined.

Lemma logEvents_none P u pw h :
  Forall (allowed P (credentialWrite u pw)) h -> logEvents h = [].
Proof.
  induction 1 as [|a h Ha _ IH]; [reflexivity |].
  destruct a; simpl in *; auto; contradiction.
Qed.

Lemma handleLog_logs line o :
  exists h, history (handleLog line o) = (history o ++ h)%list
            /\ logEvents h = [line].
Proof.
  destruct (hsteps_shape _ _ _ _ (hsteps_handleLog_tail line o))
    as [_ (h & E & F)].
  exists (EmitLog line :: h). split.
  - rewrite E. unfold emit_log. rewrite history_record, <- app_assoc. reflexivity.
  - simpl. now rewrite (logEvents_none _ _ _ _ F).
Qed.

Lemma handleLines_logs lines o :
  exists h, history (handleLines lines o) = (history o ++ h)%list
            /\ logEvents h
               = List.filter (fun l => Js.truthyStr (Js.trim l)) lines.
Proof.
  unfold handleLines. revert o.
  induction lines as [|l lines IH]; intros o; simpl.
  - exists []. split; [symmetry; apply app_nil_r | reflexivity].
  - destruct (Js.truthyStr (Js.trim l)).
    + destruct (handleLog_logs l o) as (h1 & E1 & L1).
      destruct (IH (handleLog l o)) as (h2 & E2 & L2).
      exists (h1 ++ h2)%list. split.
      * rewrite E2, E1. symmetry. apply app_assoc.
      * rewrite logEvents_app, L1, L2. reflexivity.
    + apply IH.
Qed.

(** X4. The log stream of a chunk is exactly its pieces that are not
    blank, verbatim and in order, one log event each, whatever the
    classifier makes of them. *)
Theorem handleChunk_log_stream :
  forall (chunk : string) (o : OpenVpn),
    logEvents (since o (handleChunk chunk o)) = classifiedLines chunk.
Proof.
  intros chunk o.
  destruct (handleLines_logs (Js.split chunk) o) as (h & E & L).
  unfold handleChunk. now rewrite (since_app _ _ _ E).
Qed.

Lemma handleLines_app ls1 ls2 o :
  handleLines (ls1 ++ ls2) o = handleLines ls2 (handleLines ls1 o).
Proof. unfold handleLines. apply fold_left_app. Qed.

(** X5. Cutting the output right after a line feed is harmless: to handle
    a text that has a line feed at some place as one chunk is the same as
    to handle the part up to and with that line feed and then the rest. *)
Theorem handleChunk_cut_after_line_feed :
  forall (a b : string) (o : OpenVpn),
    handleChunk (a ++ Js.nl ++ b) o = handleChunk b (handleChunk (a ++ Js.nl) o).
Proof.
  intros a b o. destruct (split_LF a) as (ps & _ & H).
  unfold handleChunk.
  rewrite (H b), <- (append_nil_r (a ++ Js.nl)), append_assoc, (H "").
  rewrite !handleLines_app. reflexivity.
Qed.

Lemma trimStart_allWhite s : allWhite s = true -> Js.trimStart s = "".
Proof.
  induction s as [|c s IH]; [reflexivity |].
  simpl. intros H. apply andb_true_iff in H as [Hc Hs]. rewrite Hc. auto.
Qed.

Lemma trim_allWhite s : allWhite s = true -> Js.truthyStr (Js.trim s) = false.
Proof. intros H. unfold Js.trim. now rewrite trimStart_allWhite. Qed.

Lemma Forall_consHead_white c ps :
  Js.isWhiteSpace c = true ->
  Forall (fun l => allWhite l = true) ps ->
  Forall (fun l => allWhite l = true) (Js.consHead c ps).
Proof.
  intros Hc Hps. destruct ps as [|l ps]; simpl.
  - constructor; [simpl; now rewrite Hc | constructor].
  - apply Forall_cons in Hps as [Hl Hps].
    constructor; [simpl; now rewrite Hc, Hl | exact Hps].
Qed.

Lemma split_allWhite_pair s :
  (allWhite s = true -> Forall (fun l => allWhite l = true) (Js.split s))
  /\ forall c, allWhite (String c s) = true ->
               Forall (fun l => allWhite l = true) (Js.split (String c s)).
Proof.
  induction s as [|c s [IH0 IH1]].
  - split; [repeat constructor |].
    intros c H. simpl in H. apply andb_true_iff in H as [Hc _].
    simpl. destruct (Ascii.eqb c Js.LF).
    + repeat constructor.
    + constructor; [simpl; now rewrite Hc | constructor].
  - split; [apply IH1 |].
    intros c1 H. simpl in H. apply andb_true_iff in H as [Hc1 H].
    pose proof H as H'. apply andb_true_iff in H' as [_ Hs].
    rewrite split_cons2.
    destruct (Ascii.eqb c1 Js.LF).
    + constructor; [reflexivity | apply IH1, H].
    + destruct (Ascii.eqb c1 Js.CR && Ascii.eqb c Js.LF).
      * constructor; [reflexivity | apply IH0, Hs].
      * apply Forall_consHead_white; [exact Hc1 | apply IH1, H].
Qed.

(** X6. A chunk of white space and line terminators only (the empty chunk
    too) leaves the session as it is: nothing is logged, nothing is
    classified. *)
Theorem handleChunk_ignores_blank :
  forall (chunk : string) (o : OpenVpn),
    allWhite chunk = true -> handleChunk chunk o = o.
Proof.
  intros chunk o H.
  pose proof (proj1 (split_allWhite_pair chunk) H) as Hp.
  unfold handleChunk, handleLines.
  induction Hp as [|l ls Hl _ IH]; simpl; [reflexivity |].
  now rewrite (trim_allWhite l Hl).
Qed.

Lemma handleChunk_ignores_blank_witness :
  handleChunk (String Js.CR Js.nl ++ "  " ++ Js.nl) alice = alice
  /\ handleChunk "" alice = alice.
Proof.
  split.
  - exact (handleChunk_ignores_blank (String Js.CR Js.nl ++ "  " ++ Js.nl)
             alice eq_refl).
  - exact (handleChunk_ignores_blank "" alice eq_refl).
Defined.

(** ** The terminator and the process table *)

Lemma killedPids_app cs1 cs2 :
  killedPids (cs1 ++ cs2) = (killedPids cs1 ++ killedPids cs2)%list.
Proof. unfold killedPids. apply flat_map_app. Qed.

Lemma sameDisk_refl w : sameDisk w w.
Proof. repeat split. Qed.

Lemma sameDisk_trans w1 w2 w3 : sameDisk w1 w2 -> sameDisk w2 w3 -> sameDisk w1 w3.
Proof. unfold sameDisk. intuition congruence. Qed.

Lemma callsSince_app w w' cs :
  calls w' = (calls w ++ cs)%list -> callsSince w w' = cs.
Proof. unfold callsSince. intros ->. apply drop_app_length. Qed.

Section KillFacts.

Variable names : list string.
Variable L : list Z.

Lemma killStep_refl w : killStep names L w w.
Proof.
  split; [apply sameDisk_refl |]. split; [lia |].
  intros H. split; [exact H |].
  exists []. split; [symmetry; apply app_nil_r | apply list_subseteq_nil].
Qed.

Lemma killStep_trans w1 w2 w3 :
  killStep names L w1 w2 -> killStep names L w2 w3 -> killStep names L w1 w3.
Proof.
  intros (D1 & N1 & K1) (D2 & N2 & K2).
  split; [eapply sameDisk_trans; eauto |]. split; [lia |].
  intros H. destruct (K1 H) as (H2 & cs1 & E1 & P1).
  destruct (K2 H2) as (H3 & cs2 & E2 & P2).
  split; [exact H3 |].
  exists (cs1 ++ cs2)%list. split.
  - rewrite E2, E1. symmetry. apply app_assoc.
  - rewrite killedPids_app. intros x Hx.
    apply elem_of_app in Hx as [Hx|Hx]; auto.
Qed.

(** A call that changes the clock and the scripts only. *)
Lemma killStep_called c w w0 :
  sameDisk w w0 -> now w <= now w0 -> psScript w0 = psScript w ->
  calls w0 = calls w -> killedPids [c] ⊆ L ->
  killStep names L w (called c w0).
Proof.
  intros D N Hps Hc Hk.
  split; [exact D |]. split; [exact N |].
  intros H. split.
  - unfold listed in *. simpl. now rewrite Hps.
  - exists [c]. split; [simpl; now rewrite Hc | exact Hk].
Qed.

Lemma killStep_sleep ms w : 0 <= ms -> killStep names L w (sleep ms w).
Proof.
  intros H. unfold sleep.
  apply killStep_called; simpl; try reflexivity; try lia.
  - repeat split.
  - apply list_subseteq_nil.
Qed.

Lemma killStep_fkill p force w :
  p ∈ L -> killStep names L w (fkill p force w).2.
Proof.
  intros Hp. unfold fkill, next_fkill.
  destruct (fkillScript w) as [|ok rest]; simpl;
    (apply killStep_called; simpl; try reflexivity; try lia;
     [repeat split | intros x Hx; apply list_elem_of_singleton in Hx; now subst]).
Qed.

Lemma killStep_fkillAll ps force w :
  ps ⊆ L -> killStep names L w (fkillAll ps force w).2.
Proof.
  intros Hp. unfold fkillAll, next_fkill.
  destruct (fkillScript w) as [|ok rest]; simpl;
    (apply killStep_called; simpl; try reflexivity; try lia;
     [repeat split | now rewrite app_nil_r]).
Qed.

Lemma killStep_fkillEach force ps w :
  map pid ps ⊆ L -> killStep names L w (fkillEach force ps w).2.
Proof.
  revert w. induction ps as [|p ps IH]; intros w H; simpl.
  - apply killStep_refl.
  - assert (Hp : pid p ∈ L) by (apply H; left).
    assert (Hps : map pid ps ⊆ L) by (intros x Hx; apply H; now right).
    pose proof (killStep_fkill (pid p) force w Hp) as H1.
    destruct (fkill (pid p) force w) as [ok w1]. simpl in H1.
    destruct ok; [| exact H1].
    eapply killStep_trans; [exact H1 | apply IH, Hps].
Qed.

Lemma listed_cons ps rest :
  map pid (List.filter (fun p => existsb (String.eqb (name p)) names)
             (concat (ps :: rest)))
  = (map pid (List.filter (fun p => existsb (String.eqb (name p)) names) ps)
     ++ map pid (List.filter (fun p => existsb (String.eqb (name p)) names)
                   (concat rest)))%list.
Proof. simpl. now rewrite List.filter_app, map_app. Qed.

Lemma filter_as_List {A} (f : A -> bool) (l : list A) :
  filter (fun x => f x) l = List.filter f l.
Proof.
  induction l as [|x l IH]; [reflexivity |].
  rewrite filter_cons. simpl. destruct (f x); simpl; now rewrite IH.
Qed.

Lemma getProcesses_listed w :
  listed names w ⊆ L ->
  map pid (getProcesses names w).1 ⊆ L
  /\ killStep names L w (getProcesses names w).2.
Proof.
  intros H. unfold getProcesses, psList.
  destruct (psScript w) as [|ps rest] eqn:E; simpl.
  - split; [apply list_subseteq_nil |].
    apply killStep_called; simpl; try reflexivity; try lia;
      [repeat split | apply list_subseteq_nil].
  - unfold listed in H. rewrite E, listed_cons in H.
    split.
    + rewrite filter_as_List. intros x Hx. apply H, elem_of_app. now left.
    + split; [repeat split |]. split; [simpl; lia |].
      intros _. split.
      * unfold listed. simpl. intros x Hx. apply H, elem_of_app. now right.
      * exists [PsList]. split; [reflexivity | apply list_subseteq_nil].
Qed.

(** A step that needs the processes of [w] to be in [L]. *)
Lemma killStep_weaken w w' :
  sameDisk w w' -> now w <= now w' ->
  (listed names w ⊆ L -> killStep names L w w') ->
  killStep names L w w'.
Proof.
  intros D N H. split; [exact D |]. split; [exact N |].
  intros Hl. destruct (H Hl) as (_ & _ & K). exact (K Hl).
Qed.

Lemma killStep_getProcesses w : killStep names L w (getProcesses names w).2.
Proof.
  apply killStep_weaken.
  - unfold getProcesses, psList. destruct (psScript w); repeat split.
  - rewrite now_getProcesses. lia.
  - intros H. apply getProcesses_listed, H.
Qed.

Lemma killStep_poll fuel startTime timeoutMs w :
  killStep names L w (poll names fuel startTime timeoutMs w).2.
Proof.
  revert w. induction fuel as [|fuel IH]; intros w; simpl.
  - apply killStep_refl.
  - destruct (now w - startTime <? timeoutMs); [| apply killStep_refl].
    assert (H1 : killStep names L w (getProcesses names (sleep 500 w)).2).
    { eapply killStep_trans;
        [apply (killStep_sleep 500); lia | apply killStep_getProcesses]. }
    destruct (getProcesses names (sleep 500 w)) as [ps w1]. simpl in H1.
    destruct (length ps =? 0)%nat; [exact H1 |].
    eapply killStep_trans; [exact H1 | apply IH].
Qed.

Lemma sameDisk_fkillEach force ps w :
  sameDisk w (fkillEach force ps w).2 /\ now (fkillEach force ps w).2 = now w.
Proof.
  revert w. induction ps as [|p ps IH]; intros w; simpl.
  - split; [apply sameDisk_refl | reflexivity].
  - unfold fkill, next_fkill.
    destruct (fkillScript w) as [|ok rest]; simpl.
    + destruct (IH (called (FkillOne (pid p) force true) w)) as [D N].
      split; [eapply sameDisk_trans; [| exact D]; repeat split | exact N].
    + destruct ok.
      * destruct (IH (called (FkillOne (pid p) force true)
                        (with_fkillScript rest w))) as [D N].
        split; [eapply sameDisk_trans; [| exact D]; repeat split | exact N].
      * split; [repeat split | reflexivity].
Qed.

Lemma killStep_kill_listed force w :
  killStep names L w
    (let (ps, w1) := getProcesses names w in
     (if (0 <? length ps)%nat then fkillEach force ps w1 else (true, w1)).2).
Proof.
  pose proof (killStep_getProcesses w) as H1.
  pose proof (fun H => proj1 (getProcesses_listed w H)) as Hp.
  destruct (getProcesses names w) as [ps w1]. simpl in *.
  destruct (0 <? length ps)%nat; [| exact H1].
  apply killStep_weaken.
  - eapply sameDisk_trans; [apply H1 | apply sameDisk_fkillEach].
  - destruct H1 as (_ & N & _).
    rewrite (proj2 (sameDisk_fkillEach force ps w1)). exact N.
  - intros H. eapply killStep_trans; [exact H1 |].
    apply killStep_fkillEach, Hp, H.
Qed.

End KillFacts.

Section KillTheorems.

Variable names : list string.

Lemma sameDisk_getProcesses w : sameDisk w (getProcesses names w).2.
Proof. unfold getProcesses, psList. destruct (psScript w); repeat split. Qed.

Lemma killStep_kill_batch L w :
  killStep names L w
    (let (ps, w1) := getProcesses names w in
     if (0 <? length ps)%nat then (fkillAll (map pid ps) true w1).2 else w1).
Proof.
  pose proof (killStep_getProcesses names L w) as H1.
  pose proof (fun H => proj1 (getProcesses_listed names L w H)) as Hp.
  destruct (getProcesses names w) as [ps w1]. simpl in *.
  destruct (0 <? length ps)%nat; [| exact H1].
  apply killStep_weaken.
  - eapply sameDisk_trans; [apply H1 |].
    unfold fkillAll, next_fkill. destruct (fkillScript w1); repeat split.
  - destruct H1 as (_ & N & _).
    unfold fkillAll, next_fkill. destruct (fkillScript w1); simpl; exact N.
  - intros H. eapply killStep_trans; [exact H1 |].
    apply killStep_fkillAll, Hp, H.
Qed.

Lemma killStep_forceKill L w : killStep names L w (forceKill names w).2.
Proof.
  unfold forceKill.
  pose proof (killStep_kill_listed names L true w) as H1.
  destruct (getProcesses names w) as [ps w1].
  destruct (if (0 <? length ps)%nat then fkillEach true ps w1 else (true, w1))
    as [ok w2]. simpl in H1.
  destruct ok; [exact H1 |].
  pose proof (killStep_kill_batch L (sleep 500 w2)) as H2.
  destruct (getProcesses names (sleep 500 w2)) as [ps' w4].
  assert (H3 : killStep names L w
                 (if (0 <? length ps')%nat
                  then (fkillAll (map pid ps') true w4).2 else w4)).
  { eapply killStep_trans; [exact H1 |].
    eapply killStep_trans; [apply (killStep_sleep names L 500); lia | exact H2]. }
  destruct (0 <? length ps')%nat; [| exact H3].
  destruct (fkillAll (map pid ps') true w4) as [ok w5].
  destruct ok; exact H3.
Qed.

Lemma killStep_killProcesses_fuel L fuel graceful timeoutMs w :
  killStep names L w (killProcesses_fuel names fuel graceful timeoutMs w).2.
Proof.
  unfold killProcesses_fuel.
  pose proof (killStep_getProcesses names L w) as H1.
  pose proof (fun H => proj1 (getProcesses_listed names L w H)) as Hp.
  destruct (getProcesses names w) as [ps w1]. simpl in *.
  destruct (length ps =? 0)%nat; [exact H1 |].
  assert (HF : killStep names L w (forceKill names w1).2)
    by (eapply killStep_trans; [exact H1 | apply killStep_forceKill]).
  destruct graceful; [| exact HF].
  assert (H2 : killStep names L w (fkillEach false ps w1).2).
  { apply killStep_weaken.
    - eapply sameDisk_trans; [apply H1 | apply sameDisk_fkillEach].
    - destruct H1 as (_ & N & _).
      rewrite (proj2 (sameDisk_fkillEach false ps w1)). exact N.
    - intros H. eapply killStep_trans; [exact H1 |].
      apply killStep_fkillEach, Hp, H. }
  destruct (fkillEach false ps w1) as [ok w2]. simpl in H2.
  destruct ok;
    [| eapply killStep_trans; [exact H2 | apply killStep_forceKill]].
  pose proof (killStep_poll names L fuel (now w2) timeoutMs w2) as H3.
  destruct (poll names fuel (now w2) timeoutMs w2) as [r w3]. simpl in H3.
  destruct r; simpl.
  - eapply killStep_trans; eauto.
  - eapply killStep_trans; [exact H2 |].
    eapply killStep_trans; [exact H3 | apply killStep_forceKill].
  - eapply killStep_trans; eauto.
Qed.

(** X7. [killProcesses] signals only processes that the process table
    lists under one of the executable names: every process id it hands to
    [fkill], gently or by force, singly or in the batch, belongs to a
    process with such a name in one of the answers of [psList]; and it
    touches neither the files nor the directories. *)
Theorem killProcesses_kills_only_listed :
  forall (graceful : bool) (timeoutMs : Z) (w : World),
    let w' := (killProcesses names graceful timeoutMs w).2 in
    killedPids (callsSince w w') ⊆ listed names w
    /\ files w' = files w /\ dirs w' = dirs w.
Proof.
  intros graceful timeoutMs w w'.
  destruct (killStep_killProcesses_fuel (listed names w) (pollFuel timeoutMs)
              graceful timeoutMs w) as (D & _ & K).
  fold (killProcesses names graceful timeoutMs w) in D, K. fold w' in D, K.
  destruct (K (reflexivity _)) as (_ & cs & E & P).
  rewrite (callsSince_app _ _ _ E).
  split; [exact P |]. split; apply D.
Qed.

(** X8. When no running process has one of the executable names,
    [killProcesses] asks the process table once and returns: no signal, no
    sleep, the clock is where it was. *)
Theorem killProcesses_nothing_to_kill :
  forall (graceful : bool) (timeoutMs : Z) (w : World),
    (getProcesses names w).1 = [] ->
    let r := killProcesses names graceful timeoutMs w in
    r.1 = Returned /\ callsSince w r.2 = [PsList] /\ now r.2 = now w.
Proof.
  intros graceful timeoutMs w H r. subst r.
  unfold killProcesses, killProcesses_fuel.
  pose proof (now_getProcesses names w) as Hn.
  assert (Hc : calls (getProcesses names w).2 = (calls w ++ [PsList])%list)
    by (unfold getProcesses, psList; destruct (psScript w); reflexivity).
  destruct (getProcesses names w) as [ps w1]. simpl in *. subst ps. simpl.
  split; [reflexivity |]. split; [apply callsSince_app, Hc | exact Hn].
Qed.

(** The calls of a loop of [fkill]. *)
Lemma fkillEach_calls force ps w :
  exists cs, calls (fkillEach force ps w).2 = (calls w ++ cs)%list
    /\ Forall (fun c => exists p ok, c = FkillOne p force ok) cs.
Proof.
  revert w. induction ps as [|p ps IH]; intros w; simpl.
  - exists []. split; [symmetry; apply app_nil_r | constructor].
  - unfold fkill, next_fkill. destruct (fkillScript w) as [|ok rest]; simpl.
    + destruct (IH (called (FkillOne (pid p) force true) w)) as (cs & E & F).
      exists (FkillOne (pid p) force true :: cs). split.
      * rewrite E. simpl. now rewrite <- app_assoc.
      * constructor; eauto.
    + destruct ok.
      * destruct (IH (called (FkillOne (pid p) force true)
                        (with_fkillScript rest w))) as (cs & E & F).
        exists (FkillOne (pid p) force true :: cs). split.
        -- rewrite E. simpl. now rewrite <- app_assoc.
        -- constructor; eauto.
      * exists [FkillOne (pid p) force false]. split; [reflexivity |].
        constructor; eauto.
Qed.

Lemma forced_quiet cs :
  Forall (fun c => exists p ok, c = FkillOne p true ok) cs ->
  gentleKills cs = [] /\ sleeps cs = [].
Proof.
  induction 1 as [|c cs (p & ok & ->) _ [IH1 IH2]]; [split; reflexivity |].
  simpl. auto.
Qed.

Lemma gentleKills_app cs1 cs2 :
  gentleKills (cs1 ++ cs2) = (gentleKills cs1 ++ gentleKills cs2)%list.
Proof. unfold gentleKills. apply List.filter_app. Qed.

Lemma sleeps_app cs1 cs2 : sleeps (cs1 ++ cs2) = (sleeps cs1 ++ sleeps cs2)%list.
Proof. unfold sleeps. apply omap_app. Qed.

Lemma quiet_retry cs tail :
  gentleKills cs = [] -> sleeps cs = [] ->
  gentleKills tail = [] -> sleeps tail = [500] ->
  gentleKills (PsList :: cs ++ tail) = []
  /\ (sleeps (PsList :: cs ++ tail) = [] \/ sleeps (PsList :: cs ++ tail) = [500]).
Proof.
  intros G S G' S'.
  change (PsList :: cs ++ tail)%list with ([PsList] ++ cs ++ tail)%list.
  rewrite !gentleKills_app, !sleeps_app, G, S, G', S'. simpl. auto.
Qed.

Lemma getProcesses_calls w :
  calls (getProcesses names w).2 = (calls w ++ [PsList])%list.
Proof. unfold getProcesses, psList. destruct (psScript w); reflexivity. Qed.

Lemma forceKill_calls w :
  exists cs, calls (forceKill names w).2 = (calls w ++ cs)%list
    /\ gentleKills cs = [] /\ (sleeps cs = [] \/ sleeps cs = [500]).
Proof.
  unfold forceKill.
  pose proof (getProcesses_calls w) as E1.
  destruct (getProcesses names w) as [ps w1]. simpl in E1.
  assert (H2 : exists cs,
             calls (if (0 <? length ps)%nat
                    then fkillEach true ps w1 else (true, w1)).2
             = (calls w1 ++ cs)%list
             /\ gentleKills cs = [] /\ sleeps cs = []).
  { destruct (0 <? length ps)%nat.
    - destruct (fkillEach_calls true ps w1) as (cs & E & F).
      exists cs. split; [exact E | apply forced_quiet, F].
    - exists []. split; [symmetry; apply app_nil_r | split; reflexivity]. }
  destruct H2 as (cs2 & E2 & G2 & S2).
  destruct (if (0 <? length ps)%nat then fkillEach true ps w1 else (true, w1))
    as [ok w2]. simpl in E2.
  destruct ok.
  - exists (PsList :: cs2). simpl. split.
    + rewrite E2, E1, <- app_assoc. reflexivity.
    + split; [exact G2 | left; exact S2].
  - pose proof (getProcesses_calls (sleep 500 w2)) as E3.
    destruct (getProcesses names (sleep 500 w2)) as [ps' w4]. simpl in E3.
    assert (E4 : calls w4 = (calls w ++ PsList :: cs2 ++ [Sleep 500; PsList])%list).
    { rewrite E3, E2, E1. rewrite <- !app_assoc. reflexivity. }
    destruct (0 <? length ps')%nat.
    + unfold fkillAll, next_fkill.
      assert (Hk : forall ok,
                 exists cs,
                   (calls w4 ++ [FkillMany (map pid ps') true ok])%list
                   = (calls w ++ cs)%list
                   /\ gentleKills cs = [] /\ (sleeps cs = [] \/ sleeps cs = [500])).
      { intros ok.
        exists (PsList :: cs2 ++ [Sleep 500; PsList; FkillMany (map pid ps') true ok])%list.
        split; [| now apply quiet_retry].
        rewrite E4, <- !app_assoc. simpl. now rewrite <- !app_assoc. }
      destruct (fkillScript w4) as [|ok rest]; [| destruct ok]; simpl; apply Hk.
    + simpl. exists (PsList :: cs2 ++ [Sleep 500; PsList])%list.
      split; [exact E4 | now apply quiet_retry].
Qed.

(** X9. Without [graceful], [killProcesses] never sends the gentle
    signal and never polls: every [fkill] it makes is forced, and it sleeps
    at most once, for 500 ms, before the batched retry. *)
Theorem killProcesses_forced_only :
  forall (timeoutMs : Z) (w : World),
    let cs := callsSince w (killProcesses names false timeoutMs w).2 in
    gentleKills cs = [] /\ (sleeps cs = [] \/ sleeps cs = [500]).
Proof.
  intros timeoutMs w.
  unfold killProcesses, killProcesses_fuel.
  pose proof (getProcesses_calls w) as E1.
  destruct (getProcesses names w) as [ps w1]. simpl in E1.
  destruct (length ps =? 0)%nat.
  - simpl. rewrite (callsSince_app _ _ _ E1). simpl. auto.
  - destruct (forceKill_calls w1) as (cs & E & G & S).
    assert (E' : calls (forceKill names w1).2 = (calls w ++ PsList :: cs)%list)
      by (rewrite E, E1, <- app_assoc; reflexivity).
    simpl. rewrite (callsSince_app _ _ _ E'). simpl. auto.
Qed.

End KillTheorems.

Section KillClock.

Variable names : list string.

Lemma now_fkillAll ps force w : now (fkillAll ps force w).2 = now w.
Proof. unfold fkillAll, next_fkill. destruct (fkillScript w); reflexivity. Qed.

Lemma poll_clock fuel startTime timeoutMs w :
  let w' := (poll names fuel startTime timeoutMs w).2 in
  now w <= now w' /\ now w' <= Z.max (now w) (startTime + timeoutMs + 499).
Proof.
  revert w. induction fuel as [|fuel IH]; intros w; simpl; [lia |].
  destruct (now w - startTime <? timeoutMs) eqn:E; simpl; [| lia].
  apply Z.ltb_lt in E.
  pose proof (now_getProcesses names (sleep 500 w)) as Hn.
  destruct (getProcesses names (sleep 500 w)) as [ps w1]. simpl in Hn.
  destruct (length ps =? 0)%nat; simpl.
  - rewrite Hn. lia.
  - specialize (IH w1). simpl in IH. rewrite Hn in IH. lia.
Qed.

Lemma forceKill_clock w :
  let w' := (forceKill names w).2 in now w <= now w' /\ now w' <= now w + 500.
Proof.
  unfold forceKill.
  pose proof (now_getProcesses names w) as H1.
  destruct (getProcesses names w) as [ps w1]. simpl in H1.
  assert (H2 : now (if (0 <? length ps)%nat
                    then fkillEach true ps w1 else (true, w1)).2 = now w).
  { destruct (0 <? length ps)%nat; [| exact H1].
    rewrite (proj2 (sameDisk_fkillEach true ps w1)). exact H1. }
  destruct (if (0 <? length ps)%nat then fkillEach true ps w1 else (true, w1))
    as [ok w2]. simpl in H2.
  destruct ok; simpl; [lia |].
  pose proof (now_getProcesses names (sleep 500 w2)) as H3.
  destruct (getProcesses names (sleep 500 w2)) as [ps' w4]. simpl in H3.
  destruct (0 <? length ps')%nat; [| simpl; lia].
  pose proof (now_fkillAll (map pid ps') true w4) as H5.
  destruct (fkillAll (map pid ps') true w4) as [ok w5]. simpl in H5.
  destruct ok; simpl; lia.
Qed.

(** X10. [killProcesses] is bounded in time: the clock never goes back,
    and all its sleeping (the polling every 500 ms until [timeoutMs] has
    passed, and the 500 ms before the batched retry) adds up to less than
    [timeoutMs + 1000] ms, and to at most 500 ms when [timeoutMs] is not
    positive. *)
Theorem killProcesses_time_bound :
  forall (graceful : bool) (timeoutMs : Z) (w : World),
    let w' := (killProcesses names graceful timeoutMs w).2 in
    now w <= now w' /\ now w' <= now w + Z.max 0 (timeoutMs + 499) + 500.
Proof.
  intros graceful timeoutMs w.
  unfold killProcesses, killProcesses_fuel.
  pose proof (now_getProcesses names w) as H1.
  destruct (getProcesses names w) as [ps w1]. simpl in H1.
  destruct (length ps =? 0)%nat; [simpl; lia |].
  pose proof (forceKill_clock w1) as HF. simpl in HF.
  destruct graceful; [| simpl; lia].
  pose proof (proj2 (sameDisk_fkillEach false ps w1)) as H2.
  destruct (fkillEach false ps w1) as [ok w2]. simpl in H2.
  destruct ok.
  - pose proof (poll_clock (pollFuel timeoutMs) (now w2) timeoutMs w2) as H3.
    destruct (poll names (pollFuel timeoutMs) (now w2) timeoutMs w2) as [r w3].
    simpl in H3.
    pose proof (forceKill_clock w3) as HF3. simpl in HF3.
    destruct r; simpl; lia.
  - pose proof (forceKill_clock w2) as HF2. simpl in HF2. simpl. lia.
Qed.

End KillClock.

(** ** The promise of connect *)

Lemma find_settling_app l1 l2 :
  find settling (l1 ++ l2)
  = match find settling l1 with
    | Some s => Some s
    | None => find settling l2
    end.
Proof.
  induction l1 as [|s l1 IH]; [reflexivity |].
  simpl. destruct (settling s); [reflexivity | exact IH].
Qed.

Lemma settle_prim o o' :
  prim o o' ->
  exists h, history o' = (history o ++ h)%list /\ (waiting o -> settledBy h o').
Proof.
  destruct 1 as [s o|a o Ha|p o|p o|d b o].
  - exists [SetStatus s; EmitStatus s]. split; [apply history_transition |].
    intros [Hl Hp]. unfold settledBy, emit_status, run_statusListener. simpl.
    rewrite Hl. unfold resolve, reject, settlement. simpl. rewrite Hp.
    destruct s; simpl; repeat split; assumption.
  - exists [a]. split; [reflexivity |].
    intros H. unfold settledBy. destruct a; simpl in *; tauto.
  - exists []. split; [symmetry; apply app_nil_r | intros H; exact H].
  - exists []. split; [symmetry; apply app_nil_r | intros H; exact H].
  - exists []. split; [symmetry; apply app_nil_r | intros H; exact H].
Qed.

Lemma settle_steps o o' :
  steps o o' ->
  exists h, history o' = (history o ++ h)%list /\ (waiting o -> settledBy h o').
Proof.
  induction 1 as [o|o1 o2 o3 Hp Hs IH].
  - exists []. split; [symmetry; apply app_nil_r | intros H; exact H].
  - destruct (settle_prim _ _ Hp) as (h1 & E1 & W1).
    destruct IH as (h2 & E2 & W2).
    exists (h1 ++ h2)%list. split.
    + rewrite E2, E1. symmetry. apply app_assoc.
    + intros Hw. specialize (W1 Hw). unfold settledBy in *.
      rewrite statusEvents_app, find_settling_app.
      destruct (find settling (statusEvents h1)) as [s|].
      * destruct W1 as [Hl Hpr].
        destruct (detached_steps _ _ Hs Hl) as [Hl' Hpr'].
        split; [exact Hl' | congruence].
      * exact (W2 W1).
Qed.

(** X11. The promise of [connect] follows the first status, among those
    emitted after the listener was registered, that is [connected], [error]
    or [auth_failed]: it is resolved for [connected] and rejected with
    ["Connection failed: "] and the status otherwise, the listener is
    removed, and nothing emitted later changes it; while no such status has
    been emitted, the promise is pending and the listener stays. *)
Theorem connect_promise_follows_first_settling_status :
  forall (evs : list ProcEvent) (o : OpenVpn),
    statusListener o = true ->
    connectPromise o = Pending ->
    match find settling (statusEvents (since o (deliver evs o))) with
    | Some s =>
        connectPromise (deliver evs o)
        = (if Status_eqb s connected then Resolved
           else Rejected ("Connection failed: " ++ Status_to_string s))
        /\ statusListener (deliver evs o) = false
    | None =>
        connectPromise (deliver evs o) = Pending
        /\ statusListener (deliver evs o) = true
    end.
Proof.
  intros evs o Hl Hp.
  destruct (settle_steps _ _ (steps_deliver evs o)) as (h & E & W).
  rewrite (since_app _ _ _ E).
  specialize (W (conj Hl Hp)). unfold settledBy, settlement in W.
  destruct (find settling (statusEvents h)); destruct W; auto.
Qed.

Lemma connect_promise_follows_first_settling_status_witness :
  let evs :=
    [ Data ("AUTH: Received control message: AUTH_FAILED" ++ Js.nl);
      Data ("Initialization Sequence Completed" ++ Js.nl) ] in
  statusEvents (since connecting_alice (deliver evs connecting_alice))
  = [auth_failed; connected]
  /\ connectPromise (deliver evs connecting_alice)
     = Rejected "Connection failed: auth_failed".
Proof.
  intros evs.
  pose proof (connect_promise_follows_first_settling_status evs connecting_alice
                eq_refl eq_refl) as H.
  assert (E : statusEvents (since connecting_alice (deliver evs connecting_alice))
              = [auth_failed; connected]) by (vm_compute; reflexivity).
  rewrite E in H. split; [exact E | exact (proj1 H)].
Defined.

Lemma with_listener_id o : statusListener o = false -> with_listener false o = o.
Proof. destruct o; simpl. now intros ->. Qed.

Lemma reject_settled msg o : connectPromise o <> Pending -> reject msg o = o.
Proof. unfold reject. destruct (connectPromise o); congruence. Qed.

(** X12. The timer of [connect] is not cancelled when the promise
    settles.  At the deadline a settled promise is left as it is, but
    [disconnect()] still runs unless the status is one of [connected],
    [disconnected], [reconnecting], [disconnecting]; with one of these four
    the timer does nothing at all. *)
Theorem timer_outlives_settlement :
  forall (names : list string) (ev1 ev2 ev3 : list ProcEvent)
         (o : OpenVpn) (w : World),
    statusListener o = false ->
    connectPromise o <> Pending ->
    let after := onTimeout names ev1 ev2 ev3 o w in
    connectPromise after.1 = connectPromise o
    /\ (timeoutApplies (status o) = true ->
        after = (let r := disconnect names true 1000 ev1 ev2 ev3 o w in
                 (r.1.2, r.2)))
    /\ (timeoutApplies (status o) = false -> after = (o, w)).
Proof.
  intros names ev1 ev2 ev3 o w Hl Hp after. subst after.
  unfold onTimeout. rewrite (with_listener_id o Hl).
  destruct (timeoutApplies (status o)).
  - rewrite (reject_settled _ o Hp).
    pose proof (steps_disconnect names true 1000 ev1 ev2 ev3 o w) as Hd.
    destruct (disconnect names true 1000 ev1 ev2 ev3 o w) as [[r o'] w'].
    simpl in *. split; [| split; [reflexivity | discriminate]].
    apply (detached_steps _ _ Hd Hl).
  - split; [reflexivity |]. split; [discriminate | reflexivity].
Qed.

Lemma timer_outlives_settlement_witness :
  let evs :=
    [ Data ("Initialization Sequence Completed" ++ Js.nl);
      Data ("AUTH: Received control message: AUTH_FAILED" ++ Js.nl) ] in
  let o := deliver evs connecting_alice in
  connectPromise o = Resolved
  /\ status o = auth_failed
  /\ connectPromise (onTimeout executables [] [] [] o calm_after_connect).1
     = Resolved
  /\ status (onTimeout executables [] [] [] o calm_after_connect).1
     = disconnecting.
Proof.
  intros evs o.
  assert (Hl : statusListener o = false) by (vm_compute; reflexivity).
  assert (Hp : connectPromise o = Resolved) by (vm_compute; reflexivity).
  assert (Hn : connectPromise o <> Pending) by (rewrite Hp; discriminate).
  pose proof (timer_outlives_settlement executables [] [] [] o calm_after_connect
                Hl Hn) as (H1 & H2 & _).
  split; [exact Hp |]. split; [vm_compute; reflexivity |].
  split; [rewrite H1; exact Hp |].
  rewrite (H2 ltac:(vm_compute; reflexivity)). vm_compute. reflexivity.
Defined.

(** ** Disconnect and connect *)

Lemma deliver_app evs1 evs2 o :
  deliver (evs1 ++ evs2) o = deliver evs2 (deliver evs1 o).
Proof. unfold deliver. apply fold_left_app. Qed.

Lemma sameSettings_deliver evs o : sameSettings o (deliver evs o).
Proof.
  apply (hsteps_shape _ _ _ _
           (hsteps_deliver evs (username o) (password o) o eq_refl eq_refl)).
Qed.

Lemma sameSettings_cleanupTempConfig o w : sameSettings o (cleanupTempConfig o w).1.
Proof. apply (hsteps_shape _ _ _ _ (hsteps_cleanupTempConfig o w)). Qed.

Lemma sameConfig_of_settings o o' : sameSettings o o' -> sameConfig o o'.
Proof. unfold sameSettings, sameConfig. tauto. Qed.

Lemma sameConfig_trans o1 o2 o3 :
  sameConfig o1 o2 -> sameConfig o2 o3 -> sameConfig o1 o3.
Proof. unfold sameConfig. intuition congruence. Qed.

Lemma sameSettings_disconnect_begin graceful o :
  sameSettings o (disconnect_begin graceful o).
Proof.
  unfold disconnect_begin.
  assert (H : sameSettings o (if notTerminal (status o)
                              then emit_status (set_status disconnecting o)
                              else o)).
  { case_match; [| apply sameSettings_refl].
    eapply sameSettings_trans; [| apply sameSettings_emit_status]. repeat split. }
  repeat case_match; try exact H;
    (eapply sameSettings_trans; [exact H | repeat split]).
Qed.

Lemma disconnect_end_facts ev3 o w :
  process (disconnect_end ev3 o w).1 = None
  /\ sameConfig o (disconnect_end ev3 o w).1.
Proof.
  unfold disconnect_end.
  set (o1 := if notTerminal (status (with_process None o)) then _ else _).
  assert (H1 : sameSettings (with_process None o) o1).
  { subst o1. case_match; [| apply sameSettings_refl].
    eapply sameSettings_trans; [| apply sameSettings_emit_status]. repeat split. }
  pose proof (sameSettings_cleanupTempConfig o1 w) as H2.
  destruct (cleanupTempConfig o1 w) as [o2 w2]. simpl in *.
  pose proof (sameSettings_deliver ev3 o2) as H3.
  pose proof (sameSettings_trans _ _ _ (sameSettings_trans _ _ _ H1 H2) H3) as H.
  split.
  - destruct H as (_ & _ & _ & _ & _ & _ & _ & _ & Hp). exact Hp.
  - apply sameConfig_of_settings in H. exact H.
Qed.

Lemma status_disconnect_end_terminal o w :
  status o = disconnected ->
  status (disconnect_end [] o w).1 = disconnected.
Proof.
  intros H. unfold disconnect_end.
  change (status (with_process None o)) with (status o). rewrite H. simpl.
  pose proof (status_cleanupTempConfig (with_process None o) w) as Hc.
  destruct (cleanupTempConfig (with_process None o) w) as [o1 w1].
  simpl in *. now rewrite Hc.
Qed.

Section LifecycleFacts.

Variable names : list string.

Lemma sameDisk_killProcesses graceful timeoutMs w :
  sameDisk w (killProcesses names graceful timeoutMs w).2.
Proof. apply (killStep_killProcesses_fuel names []). Qed.

Lemma killProcesses_ends graceful timeoutMs w :
  (killProcesses names graceful timeoutMs w).1 <> OutOfFuel.
Proof.
  destruct (killProcesses_fuel_settled names (pollFuel timeoutMs) graceful
              timeoutMs w (le_n _)) as [[H|[H _]] _];
    fold (killProcesses names graceful timeoutMs w) in H; rewrite H; discriminate.
Qed.

(** X13. When the [close] event of the child is the last event that
    arrives while [disconnect] waits for [killProcesses], and [disconnect]
    returns, the session ends [disconnected], from every starting status. *)
Theorem disconnect_ends_disconnected_after_close :
  forall (graceful : bool) (timeoutMs : Z) (ev1 ev2 : list ProcEvent)
         (o : OpenVpn) (w : World),
    let r := disconnect names graceful timeoutMs ev1 (ev2 ++ [Close]) [] o w in
    r.1.1 = Returned -> status r.1.2 = disconnected.
Proof.
  intros graceful timeoutMs ev1 ev2 o w. unfold disconnect.
  set (o0 := disconnect_begin graceful o).
  assert (He : forall x w1,
             status (disconnect_end [] (deliver (ev2 ++ [Close]) x) w1).1
             = disconnected).
  { intros x w1. apply status_disconnect_end_terminal.
    rewrite deliver_app. simpl. apply status_transition. }
  destruct (bool_decide (is_Some (process o0)) && graceful); simpl.
  - destruct (killProcesses names graceful timeoutMs _) as [r w1].
    destruct r; simpl; try discriminate. intros _.
    specialize (He (deliver ev1 o0) w1).
    destruct (disconnect_end [] _ w1). exact He.
  - destruct (killProcesses names graceful timeoutMs _) as [r w1].
    destruct r; simpl; try discriminate. intros _.
    specialize (He o0 w1). destruct (disconnect_end [] _ w1). exact He.
Qed.

(** X14. [disconnect] either returns or is rejected by [killProcesses].
    When it returns, the child handle is released and the configuration
    of the session is as before.  When it is rejected, the teardown is
    abandoned half way: the handle is still held, and no file or directory
    has been removed. *)
Theorem disconnect_releases_or_abandons :
  forall (graceful : bool) (timeoutMs : Z) (ev1 ev2 ev3 : list ProcEvent)
         (o : OpenVpn) (w : World),
    let r := disconnect names graceful timeoutMs ev1 ev2 ev3 o w in
    (r.1.1 = Returned /\ process r.1.2 = None /\ sameConfig o r.1.2)
    \/ (r.1.1 = Raised /\ process r.1.2 = process o
        /\ files r.2 = files w /\ dirs r.2 = dirs w).
Proof.
  intros graceful timeoutMs ev1 ev2 ev3 o w. unfold disconnect.
  pose proof (sameSettings_disconnect_begin graceful o) as H0.
  set (o0 := disconnect_begin graceful o) in *.
  assert (Hx : forall x w0,
             sameSettings o x -> sameDisk w w0 ->
             let r := (let (r, w1) := killProcesses names graceful timeoutMs w0 in
                       match r with
                       | Returned =>
                           let (o2, w2) := disconnect_end ev3 (deliver ev2 x) w1 in
                           (Returned, o2, w2)
                       | _ => (r, deliver ev2 x, w1)
                       end) in
             (r.1.1 = Returned /\ process r.1.2 = None /\ sameConfig o r.1.2)
             \/ (r.1.1 = Raised /\ process r.1.2 = process o
                 /\ files r.2 = files w /\ dirs r.2 = dirs w)).
  { intros x w0 Hs Hd.
    pose proof (sameDisk_killProcesses graceful timeoutMs w0) as Hk.
    pose proof (killProcesses_ends graceful timeoutMs w0) as Hf.
    destruct (killProcesses names graceful timeoutMs w0) as [r w1].
    simpl in Hk, Hf.
    pose proof (sameSettings_trans _ _ _ Hs (sameSettings_deliver ev2 x)) as H2.
    destruct r; [| | congruence].
    - left. destruct (disconnect_end_facts ev3 (deliver ev2 x) w1) as [Hp Hc].
      destruct (disconnect_end ev3 (deliver ev2 x) w1) as [o2 w2]. simpl in *.
      split; [reflexivity |]. split; [exact Hp |].
      eapply sameConfig_trans; [apply sameConfig_of_settings, H2 | exact Hc].
    - right. simpl. split; [reflexivity |].
      split; [apply H2 |].
      destruct (sameDisk_trans _ _ _ Hd Hk) as (Hfi & Hdi & _). auto. }
  destruct (bool_decide (is_Some (process o0)) && graceful).
  - apply Hx.
    + eapply sameSettings_trans; [exact H0 | apply sameSettings_deliver].
    + repeat split.
  - apply Hx; [exact H0 | apply sameDisk_refl].
Qed.

End LifecycleFacts.

Lemma disconnect_ends_disconnected_after_close_witness :
  let o := deliver [Data ("Initialization Sequence Completed" ++ Js.nl)]
             connecting_alice in
  status o = connected
  /\ status (disconnect executables true 1000 [] ([] ++ [Close]) [] o
               calm_after_connect).1.2 = disconnected.
Proof.
  intros o. split; [reflexivity |].
  apply (disconnect_ends_disconnected_after_close executables true 1000 [] [] o
           calm_after_connect).
  vm_compute. reflexivity.
Defined.


Section ConnectFacts.

Variable names : list string.

Lemma bootstrap_facts ev1 ev2 o w :
  let r := bootstrap names ev1 ev2 o w in
  sameConfig o r.1.2 /\ sameDisk w r.2
  /\ (r.1.1 = Returned -> process r.1.2 = None).
Proof.
  unfold bootstrap.
  assert (H0 : sameSettings o (emit_status (set_status connecting o))).
  { eapply sameSettings_trans; [| apply sameSettings_emit_status]. repeat split. }
  set (o0 := emit_status (set_status connecting o)) in *.
  assert (Hx : forall x w0,
             sameSettings o x -> sameDisk w w0 ->
             let r := (let (r, w1) := killProcesses names true 1000 w0 in
                       match r with
                       | Returned => (Returned, with_process None (deliver ev2 x), w1)
                       | _ => (r, deliver ev2 x, w1)
                       end) in
             sameConfig o r.1.2 /\ sameDisk w r.2
             /\ (r.1.1 = Returned -> process r.1.2 = None)).
  { intros x w0 Hs Hd.
    pose proof (sameDisk_killProcesses names true 1000 w0) as Hk.
    destruct (killProcesses names true 1000 w0) as [r w1]. simpl in Hk.
    pose proof (sameConfig_of_settings _ _
                  (sameSettings_trans _ _ _ Hs (sameSettings_deliver ev2 x))) as H2.
    pose proof (sameDisk_trans _ _ _ Hd Hk) as Hd2.
    destruct r; simpl; (split; [exact H2 |]; split; [exact Hd2 |]);
      [reflexivity | discriminate | discriminate]. }
  destruct (process o0) as [p|].
  - apply Hx; [| repeat split].
    eapply sameSettings_trans; [exact H0 |].
    eapply sameSettings_trans; [| apply sameSettings_deliver]. repeat split.
  - apply Hx; [exact H0 | apply sameDisk_refl].
Qed.

Lemma createAuthFile_facts o w :
  let r := createAuthFile o w in
  execPath r.2 = execPath w /\ children r.2 = children w
  /\ configPath r.1.2 = configPath o /\ customFlags r.1.2 = customFlags o
  /\ (exists c, calls r.2 = (calls w ++ c)%list).
Proof.
  unfold createAuthFile.
  destruct (negb (Js.truthy (tempDir o))).
  - destruct (negb (existsSync _ w));
      destruct (random _) as [x w1] eqn:Er; unfold random in Er;
      destruct (randoms _); simplify_eq; simpl; repeat split; eauto.
    all: eexists; rewrite <- app_assoc; reflexivity.
  - destruct (random w) as [x w1] eqn:Er; unfold random in Er;
      destruct (randoms _); simplify_eq; simpl; repeat split; eauto.
Qed.

(** X15. When [connect] gets as far as its promise, the child was
    spawned with the located executable and with these arguments, in this
    order: [--config] and the configuration path; then, only when
    [useAuthFile] is set, [--auth-user-pass] and the credential file; then
    the caller's flags, verbatim and last.  The credential file is the one
    the session already had, or else a file just written with the user name,
    a line feed and the password.  The session holds the new child, and the
    promise is pending with its listener registered. *)
Theorem connect_spawn_arguments :
  forall (ev1 ev2 : list ProcEvent) (o : OpenVpn) (w : World),
    let r := connect names ev1 ev2 o w in
    r.1.1 = Returned ->
    exists path,
      execPath w = Some path
      /\ last (calls r.2)
         = Some (Spawn path
                   (["--config"; configPath o]
                    ++ (if useAuthFile o
                        then ["--auth-user-pass"; Js.show (authPath r.1.2)]
                        else [])
                    ++ customFlags o)%list)
      /\ process r.1.2 = Some (children w)
      /\ connectPromise r.1.2 = Pending /\ statusListener r.1.2 = true
      /\ (useAuthFile o = true ->
          if Js.truthy (authPath o) then authPath r.1.2 = authPath o
          else files r.2 !! Js.show (authPath r.1.2)
               = Some (Js.show (username o) ++ Js.nl ++ Js.show (password o))).
Proof.
  intros ev1 ev2 o w. unfold connect.
  destruct (bootstrap_facts ev1 ev2 o w) as (Hc & Hd & _).
  destruct (bootstrap names ev1 ev2 o w) as [[r o1] w1]. simpl in Hc, Hd.
  destruct Hc as (Hcp & Hu & Hpw & Hap & Huf & Hcf & _).
  destruct Hd as (_ & _ & _ & _ & _ & Hex & Hch).
  destruct r; simpl; try discriminate.
  rewrite Hex. destruct (execPath w) as [path|]; simpl; [| discriminate].
  intros _. exists path. split; [reflexivity |].
  rewrite <- Huf, <- Hcp, <- Hch.
  destruct (useAuthFile o1); simpl.
  - rewrite <- Hap. destruct (Js.truthy (authPath o1)) eqn:Et; simpl.
    + unfold spawn. simpl. rewrite Hcf.
      split; [destruct (customFlags o); simpl; rewrite last_snoc; reflexivity |].
      split; [reflexivity |]. split; [reflexivity |]. split; [reflexivity |].
      intros _. reflexivity.
    + pose proof (createAuthFile_authFile o1 w1) as Hf.
      destruct (createAuthFile_facts o1 w1) as (_ & Hch2 & Hcp2 & Hcf2 & _).
      destruct (createAuthFile o1 w1) as [[p o2] w2]. simpl in *.
      unfold spawn. simpl. rewrite Hcf2, Hcf, Hch2.
      split; [destruct (customFlags o); simpl; rewrite last_snoc; reflexivity |].
      split; [reflexivity |]. split; [reflexivity |]. split; [reflexivity |].
      intros _. rewrite Hf, Hu, Hpw. reflexivity.
  - unfold spawn. simpl. rewrite Hcf.
    split; [destruct (customFlags o); simpl; rewrite last_snoc; reflexivity |].
    split; [reflexivity |]. split; [reflexivity |]. split; [reflexivity |].
    discriminate.
Qed.

End ConnectFacts.

Lemma connect_spawn_arguments_witness :
  let made := createFromConfig bob calm in
  let r := connect executables [] [] made.1.1 made.2 in
  r.1.1 = Returned
  /\ files r.2 !! made.1.2 = Some "bob:secret"
  /\ authPath r.1.2 <> Some made.1.2
  /\ files r.2 !! Js.show (authPath r.1.2) = Some ("bob" ++ Js.nl ++ "secret").
Proof.
  intros made r.
  assert (Hr : r.1.1 = Returned) by (vm_compute; reflexivity).
  destruct (connect_spawn_arguments executables [] [] made.1.1 made.2 Hr)
    as (path & _ & _ & _ & _ & _ & Hf).
  split; [exact Hr |].
  split; [vm_compute; reflexivity |].
  split; [vm_compute; discriminate |].
  exact (Hf eq_refl).
Defined.

(** ** Temporary files *)

Lemma unlinkSync_ok p w :
  fsScript w = [] ->
  unlinkSync p w = (None, called (Unlink p true) (with_files (delete p (files w)) w)).
Proof. intros H. unfold unlinkSync, next_fs. now rewrite H. Qed.

Lemma dirs_unlinkSync p w : dirs (unlinkSync p w).2 = dirs w.
Proof. unfold unlinkSync, next_fs. destruct (fsScript w) as [|[e|] rest]; reflexivity. Qed.

Lemma files_unlinkSync_None p q w :
  files w !! q = None -> files (unlinkSync p w).2 !! q = None.
Proof.
  intros H. unfold unlinkSync, next_fs.
  destruct (fsScript w) as [|[e|] rest]; simpl; try exact H.
  - destruct (decide (p = q)) as [->|Hne];
      [apply lookup_delete_eq | now rewrite lookup_delete_ne].
  - destruct (decide (p = q)) as [->|Hne];
      [apply lookup_delete_eq | now rewrite lookup_delete_ne].
Qed.

Lemma files_rmSync_None p q w :
  files w !! q = None -> files (rmSync p w).2 !! q = None.
Proof.
  intros H. unfold rmSync, next_fs.
  destruct (fsScript w) as [|[e|] rest]; simpl; try exact H;
    apply map_lookup_filter_None; left; exact H.
Qed.

(** The three file-system steps of [cleanupTempConfig], one by one. *)
Lemma cleanup_keeps_None o w q :
  files w !! q = None -> files (cleanupTempConfig o w).2 !! q = None.
Proof.
  intros H. unfold cleanupTempConfig.
  assert (H1 : files (if Js.truthyStr (configPath o) && existsSync (configPath o) w
                      then unlinkSync (configPath o) w else (None, w)).2 !! q = None).
  { case_match; [apply files_unlinkSync_None, H | exact H]. }
  destruct (if Js.truthyStr (configPath o) && existsSync (configPath o) w
            then unlinkSync (configPath o) w else (None, w)) as [e1 w1].
  simpl in H1.
  assert (H2 : files (match e1 with
                      | Some e => (Some e, w1)
                      | None =>
                          if Js.truthy (authPath o)
                             && existsSync (Js.show (authPath o)) w1
                          then unlinkSync (Js.show (authPath o)) w1 else (None, w1)
                      end).2 !! q = None).
  { destruct e1; [exact H1 |].
    case_match; [apply files_unlinkSync_None, H1 | exact H1]. }
  destruct (match e1 with
            | Some e => (Some e, w1)
            | None => _
            end) as [failure w2]. simpl in H2.
  destruct (Js.truthy (tempDir _) && isTempConfig _ && existsSync _ w2);
    [| exact H2].
  pose proof (files_rmSync_None (Js.show (tempDir
               match failure with
               | Some e => emit_log ("Error cleaning up temp files: " ++ e) o
               | None => o
               end)) q w2 H2) as H3.
  destruct (rmSync _ w2) as [[e|] w3]; exact H3.
Qed.

(** X16. [cleanup] (and so [disconnect]) removes the file at
    [configPath] whenever it exists and the removal does not fail, also for
    a session that was constructed from a path of the caller and owns no
    temporary files. *)
Theorem cleanup_removes_config_file :
  forall (o : OpenVpn) (w : World) (content : string),
    isTempConfig o = false ->
    files w !! configPath o = Some content ->
    configPath o <> "" ->
    fsScript w = [] ->
    files (cleanup o w).2 !! configPath o = None.
Proof.
  intros o w content _ Hf Hne Hs. unfold cleanup, cleanupTempConfig.
  assert (Ht : Js.truthyStr (configPath o) = true)
    by (destruct (configPath o); [congruence | reflexivity]).
  assert (He : existsSync (configPath o) w = true).
  { unfold existsSync. rewrite Hf. reflexivity. }
  rewrite Ht, He, (unlinkSync_ok _ _ Hs). cbn [andb].
  set (w1 := called _ _).
  assert (H1 : files w1 !! configPath o = None) by apply lookup_delete_eq.
  assert (H2 : files (if Js.truthy (authPath o) && existsSync (Js.show (authPath o)) w1
                      then unlinkSync (Js.show (authPath o)) w1
                      else (None, w1)).2 !! configPath o = None).
  { case_match; [apply files_unlinkSync_None, H1 | exact H1]. }
  destruct (if Js.truthy (authPath o) && existsSync (Js.show (authPath o)) w1
            then unlinkSync (Js.show (authPath o)) w1 else (None, w1))
    as [failure w2]. simpl in H2.
  destruct (Js.truthy (tempDir _) && isTempConfig _ && existsSync _ w2);
    [| exact H2].
  pose proof (files_rmSync_None (Js.show (tempDir
               match failure with
               | Some e => emit_log ("Error cleaning up temp files: " ++ e) o
               | None => o
               end)) (configPath o) w2 H2) as H3.
  destruct (rmSync _ w2) as [[e|] w3]; exact H3.
Qed.

(** A session made from the caller's own file. *)
Lemma cleanup_removes_config_file_witness :
  let w := writeFileSync "client.ovpn" "client" calm in
  files w !! "client.ovpn" = Some "client"
  /\ files (cleanup alice w).2 !! "client.ovpn" = None.
Proof.
  intros w.
  assert (H : files w !! configPath alice = Some "client") by apply lookup_insert_eq.
  split; [exact H |].
  refine (cleanup_removes_config_file alice w "client" eq_refl H _ eq_refl).
  discriminate.
Defined.

Lemma isEmitLog_only P h :
  Forall (allowed P isEmitLog) h -> (forall s, ~ P s) -> Forall isEmitLog h.
Proof.
  intros H HP. induction H as [|a h Ha _ IH]; constructor; [| exact IH].
  destruct a; simpl in *; try exact I; try contradiction; exfalso; eapply HP; eauto.
Qed.

(** X17. Whatever fails in the file system, [cleanup] is not rejected
    and only reports: the status, the configuration and the process handle
    of the session are as before, no status event is emitted, and all it
    adds to the history are log events. *)
Theorem cleanup_only_logs :
  forall (o : OpenVpn) (w : World),
    status (cleanup o w).1 = status o
    /\ sameSettings o (cleanup o w).1
    /\ Forall isEmitLog (since o (cleanup o w).1).
Proof.
  intros o w. unfold cleanup.
  split; [apply status_cleanupTempConfig |].
  destruct (hsteps_shape _ _ _ _ (hsteps_cleanupTempConfig o w)) as [Hs (h & E & F)].
  split; [exact Hs |].
  rewrite (since_app _ _ _ E).
  apply (isEmitLog_only _ _ F). intros s H; exact H.
Qed.

Lemma dirs_cleanup_not_temp o w :
  isTempConfig o = false -> dirs (cleanupTempConfig o w).2 = dirs w.
Proof.
  intros Ht. unfold cleanupTempConfig.
  assert (H1 : dirs (if Js.truthyStr (configPath o) && existsSync (configPath o) w
                     then unlinkSync (configPath o) w else (None, w)).2 = dirs w).
  { case_match; [apply dirs_unlinkSync | reflexivity]. }
  destruct (if Js.truthyStr (configPath o) && existsSync (configPath o) w
            then unlinkSync (configPath o) w else (None, w)) as [e1 w1].
  simpl in H1.
  assert (H2 : dirs (match e1 with
                     | Some e => (Some e, w1)
                     | None =>
                         if Js.truthy (authPath o)
                            && existsSync (Js.show (authPath o)) w1
                         then unlinkSync (Js.show (authPath o)) w1 else (None, w1)
                     end).2 = dirs w).
  { destruct e1; [exact H1 |].
    case_match; [rewrite dirs_unlinkSync; exact H1 | exact H1]. }
  destruct (match e1 with
            | Some e => (Some e, w1)
            | None => _
            end) as [failure w2]. simpl in H2.
  assert (Hi : isTempConfig match failure with
                            | Some e => emit_log ("Error cleaning up temp files: " ++ e) o
                            | None => o
                            end = false) by (destruct failure; exact Ht).
  rewrite Hi, andb_false_r. exact H2.
Qed.

(** X18. The directory that [createAuthFile] makes for a session that
    has no temporary directory yet (a session not made by
    [createFromConfig]) is never removed: after [cleanup] with the new
    credential path, whatever fails or not, the directory is still
    there. *)
Theorem createAuthFile_directory_outlives_cleanup :
  forall (o : OpenVpn) (w : World),
    Js.truthy (tempDir o) = false ->
    isTempConfig o = false ->
    files w !! newTempDir w = None ->
    let made := createAuthFile o w in
    let o' := with_authPath (Some made.1.1) made.1.2 in
    tempDir o' = Some (newTempDir w)
    /\ newTempDir w ∈ dirs made.2
    /\ newTempDir w ∈ dirs (cleanup o' made.2).2.
Proof.
  intros o w Ht Hi Hf made o'. subst o' made.
  unfold cleanup. rewrite dirs_cleanup_not_temp.
  2:{ unfold createAuthFile. rewrite Ht. simpl.
      destruct (random _) as [r w1]. exact Hi. }
  unfold createAuthFile. rewrite Ht. cbn [negb].
  fold (newTempDir w).
  assert (Hd : newTempDir w ∈ dirs (if negb (existsSync (newTempDir w) w)
                                    then mkdirSync (newTempDir w) w else w)).
  { destruct (existsSync (newTempDir w) w) eqn:E; simpl.
    - unfold existsSync in E. rewrite Hf in E. simpl in E.
      apply bool_decide_eq_true in E. exact E.
    - apply elem_of_union. left. now apply elem_of_singleton. }
  set (w0 := if negb (existsSync (newTempDir w) w) then _ else w) in *.
  unfold random. destruct (randoms w0); simpl; auto.
Qed.

Lemma createAuthFile_directory_outlives_cleanup_witness :
  let made := createAuthFile alice calm in
  newTempDir calm = "/tmp/openvpn-client-1700000000000"
  /\ newTempDir calm
     ∈ dirs (cleanup (with_authPath (Some made.1.1) made.1.2) made.2).2.
Proof.
  intros made. split; [vm_compute; reflexivity |].
  exact (proj2 (proj2 (createAuthFile_directory_outlives_cleanup alice calm
                         eq_refl eq_refl eq_refl))).
Defined.

Lemma startsWith_append p s : Js.startsWith p (p ++ s) = true.
Proof.
  induction p as [|c p IH]; [reflexivity |].
  change (Js.startsWith (String c p) (String c (p ++ s)) = true).
  simpl. now rewrite Ascii.eqb_refl.
Qed.

Lemma inside_path_join d x : Js.startsWith (d ++ "/") (path_join d x) = true.
Proof. unfold path_join. rewrite <- append_assoc. apply startsWith_append. Qed.

Lemma existsSync_writeFileSync p q c w :
  existsSync p w = true -> existsSync p (writeFileSync q c w) = true.
Proof.
  unfold existsSync, writeFileSync. simpl. intros H.
  apply orb_true_iff in H as [H|H]; apply orb_true_iff; [left | right; exact H].
  apply bool_decide_eq_true in H. apply bool_decide_eq_true.
  destruct (decide (q = p)) as [->|Hne];
    [rewrite lookup_insert_eq; eauto | now rewrite lookup_insert_ne].
Qed.

Lemma existsSync_mkdir_or d w :
  existsSync d (if negb (existsSync d w) then mkdirSync d w else w) = true.
Proof.
  destruct (existsSync d w) eqn:E; simpl; [exact E |].
  unfold existsSync, mkdirSync. simpl. apply orb_true_iff. right.
  apply bool_decide_eq_true, elem_of_union. left. now apply elem_of_singleton.
Qed.

Lemma existsSync_random p w : existsSync p (random w).2 = existsSync p w.
Proof. unfold random. destruct (randoms w); reflexivity. Qed.

(** The two file names of [createFromConfig] differ. *)
Lemma config_auth_differ d t1 t2 r1 r2 :
  path_join d ("config-" ++ t1 ++ "-" ++ r1 ++ ".ovpn")
  <> path_join d ("auth-" ++ t2 ++ "-" ++ r2).
Proof.
  unfold path_join. intros H.
  apply String.app_inj in H. discriminate H.
Qed.

(** X19. [createFromConfig] materializes the configuration: the text is
    in the file at the [configPath] of the new session; that file and the
    credential file lie in the temporary directory, which exists and which
    the session owns ([isTempConfig]); the session is [stopped] with no
    child; but it does not remember the path of the credential file. *)
Theorem createFromConfig_materializes :
  forall (options : ConfigOptions) (w : World),
    let made := createFromConfig options w in
    let inst := made.1.1 in
    files made.2 !! configPath inst = Some (cfg_config options)
    /\ tempDir inst = Some (newTempDir w) /\ isTempConfig inst = true
    /\ existsSync (newTempDir w) made.2 = true
    /\ Js.startsWith (newTempDir w ++ "/") (configPath inst) = true
    /\ Js.startsWith (newTempDir w ++ "/") made.1.2 = true
    /\ authPath inst = None
    /\ status inst = stopped /\ process inst = None.
Proof.
  intros options w. unfold createFromConfig. fold (newTempDir w).
  pose proof (existsSync_mkdir_or (newTempDir w) w) as He.
  set (w0 := if negb (existsSync (newTempDir w) w) then _ else w) in *.
  rewrite <- (existsSync_random _ w0) in He.
  destruct (random w0) as [r1 w1]. simpl in He.
  rewrite <- (existsSync_random _ w1) in He.
  destruct (random w1) as [r2 w2]. simpl in He.
  destruct (cfg_useAuthFile options); simpl;
    repeat split;
    try apply inside_path_join;
    try (repeat apply existsSync_writeFileSync; exact He);
    try apply lookup_insert_eq.
  rewrite lookup_insert_ne by (apply not_eq_sym, config_auth_differ).
  apply lookup_insert_eq.
Qed.

Lemma truthyStr_path_join a b : Js.truthyStr (path_join a b) = true.
Proof. unfold path_join. destruct a; reflexivity. Qed.

Lemma truthyStr_true s : s <> "" -> Js.truthyStr s = true.
Proof. destruct s; [congruence | reflexivity]. Qed.

(** [cleanupTempConfig] on a session that owns its temporary directory
    and has no credential path, when nothing fails. *)
Lemma cleanup_owned o w d :
  fsScript w = [] ->
  configPath o <> "" ->
  is_Some (files w !! configPath o) ->
  authPath o = None ->
  tempDir o = Some d -> d <> "" -> isTempConfig o = true ->
  d ∈ dirs w ->
  (cleanupTempConfig o w).1 = o
  /\ files (cleanupTempConfig o w).2
     = filter (fun kv => negb (Js.startsWith (d ++ "/") kv.1) = true)
         (delete (configPath o) (files w))
  /\ dirs (cleanupTempConfig o w).2
     = filter (fun q => negb (String.eqb q d || Js.startsWith (d ++ "/") q) = true)
         (dirs w).
Proof.
  intros Hs Hc Hf Ha Ht Hd Hi Hin. unfold cleanupTempConfig.
  assert (He : existsSync (configPath o) w = true).
  { unfold existsSync. now rewrite bool_decide_eq_true_2. }
  rewrite (truthyStr_true _ Hc), He, (unlinkSync_ok _ _ Hs), Ha. cbn [andb Js.truthy].
  rewrite Ht, Hi. cbn [Js.truthy Js.show andb]. rewrite (truthyStr_true _ Hd).
  assert (He2 : existsSync d
                  (called (Unlink (configPath o) true)
                     (with_files (delete (configPath o) (files w)) w)) = true).
  { unfold existsSync. simpl. rewrite (bool_decide_eq_true_2 _ Hin).
    apply orb_true_r. }
  rewrite He2. cbn [andb]. unfold rmSync, next_fs. simpl. rewrite Hs.
  repeat split.
Qed.

Lemma random_frame w :
  files (random w).2 = files w /\ dirs (random w).2 = dirs w
  /\ fsScript (random w).2 = fsScript w.
Proof. unfold random. destruct (randoms w); repeat split. Qed.

Lemma not_inside_fresh d w q x :
  freshDir d w -> files w !! q = Some x ->
  negb (Js.startsWith (d ++ "/") q) = true.
Proof.
  intros [_ Hfr] Hq. destruct (Js.startsWith (d ++ "/") q) eqn:E; [| reflexivity].
  destruct (Hfr q E) as [Hn _]. congruence.
Qed.

(** X20. Making a session from a configuration text and cleaning it up
    again leaves the disk as it was, when the temporary directory is new
    and no removal fails: the files and the directories of the world are
    those from before [createFromConfig], and [cleanup] reports nothing. *)
Theorem createFromConfig_cleanup_round_trip :
  forall (options : ConfigOptions) (w : World),
    fsScript w = [] ->
    freshDir (newTempDir w) w ->
    let made := createFromConfig options w in
    let cleaned := cleanup made.1.1 made.2 in
    files cleaned.2 = files w /\ dirs cleaned.2 = dirs w
    /\ cleaned.1 = made.1.1.
Proof.
  intros options w Hs Hfr made cleaned. subst cleaned made. unfold cleanup.
  destruct (createFromConfig_materializes options w)
    as (Hcfg & Htd & Hit & _ & Hin1 & Hin2 & Hap & _).
  assert (Hdisk :
            fsScript (createFromConfig options w).2 = []
            /\ dirs (createFromConfig options w).2 = {[newTempDir w]} ∪ dirs w
            /\ exists ap c,
                Js.startsWith (newTempDir w ++ "/") ap = true
                /\ (files (createFromConfig options w).2
                    = <[configPath (createFromConfig options w).1.1 := cfg_config options]>
                        (files w)
                    \/ files (createFromConfig options w).2
                       = <[ap := c]>
                           (<[configPath (createFromConfig options w).1.1
                              := cfg_config options]> (files w)))).
  { unfold createFromConfig. fold (newTempDir w).
    rewrite (proj1 Hfr). cbn [negb].
    pose proof (random_frame (mkdirSync (newTempDir w) w)) as (F1 & D1 & S1).
    destruct (random (mkdirSync (newTempDir w) w)) as [r1 w1]. simpl in F1, D1, S1.
    pose proof (random_frame w1) as (F2 & D2 & S2).
    destruct (random w1) as [r2 w2]. simpl in F2, D2, S2.
    destruct (cfg_useAuthFile options); simpl; rewrite F2, F1, D2, D1, S2, S1;
      (split; [exact Hs |]; split; [reflexivity |]).
    - eexists _, _. split; [apply inside_path_join | right; reflexivity].
    - exists (path_join (newTempDir w) ""), "".
      split; [apply inside_path_join | left; reflexivity]. }
  destruct Hdisk as (Hfs & Hdisk).
  destruct Hdisk as (Hdirs & ap & c & Hap_in & Hfiles).
  set (inst := (createFromConfig options w).1.1) in *.
  set (w' := (createFromConfig options w).2) in *.
  assert (Hcp : configPath inst <> "").
  { intros E. rewrite E in Hin1. destruct (newTempDir w); discriminate Hin1. }
  assert (Hd : newTempDir w <> "").
  { unfold newTempDir. pose proof (truthyStr_path_join (tmpdir w)
      ("openvpn-client-" ++ nowText w)) as H. intros E. rewrite E in H. discriminate H. }
  destruct (cleanup_owned inst w' (newTempDir w) Hfs Hcp
              ltac:(rewrite Hcfg; eauto) Hap Htd Hd Hit
              ltac:(rewrite Hdirs; apply elem_of_union; left;
                    now apply elem_of_singleton))
    as (H1 & H2 & H3).
  split; [| split; [| exact H1]].
  - rewrite H2.
    assert (Hno : forall y : string,
               ~ (negb (Js.startsWith (newTempDir w ++ "/") (configPath inst)) = true)).
    { intros _. rewrite Hin1. discriminate. }
    assert (Hid : filter (fun kv : string * string =>
                            negb (Js.startsWith (newTempDir w ++ "/") kv.1) = true)
                    (files w) = files w).
    { apply map_filter_id. intros q x Hq. simpl.
      exact (not_inside_fresh _ _ _ _ Hfr Hq). }
    assert (Hnone : files w !! configPath inst = None)
      by (apply (proj2 Hfr), Hin1).
    rewrite map_filter_delete.
    destruct Hfiles as [-> | ->].
    + rewrite map_filter_insert_not by (intros y; simpl; apply Hno; exact y).
      rewrite Hid. apply delete_id, Hnone.
    + rewrite map_filter_insert_not
        by (intros y; simpl; rewrite Hap_in; discriminate).
      rewrite map_filter_insert_not by (intros y; simpl; apply Hno; exact y).
      rewrite Hid. apply delete_id, Hnone.
  - rewrite H3, Hdirs. apply set_eq. intros q.
    rewrite elem_of_filter, elem_of_union, elem_of_singleton.
    split.
    + intros [Hq [->|Hq']]; [| exact Hq'].
      rewrite String.eqb_refl in Hq. discriminate Hq.
    + intros Hq. split; [| right; exact Hq].
      destruct (String.eqb q (newTempDir w)) eqn:E1.
      * apply String.eqb_eq in E1. subst q.
        destruct Hfr as [Hex _]. unfold existsSync in Hex.
        apply orb_false_elim in Hex as [_ Hex].
        apply bool_decide_eq_false in Hex. contradiction.
      * destruct (Js.startsWith (newTempDir w ++ "/") q) eqn:E2; [| reflexivity].
        destruct (proj2 Hfr q E2) as [_ Hn]. contradiction.
Qed.

Lemma createFromConfig_cleanup_round_trip_witness :
  let made := createFromConfig bob calm in
  files made.2 !! made.1.2 = Some "bob:secret"
  /\ files (cleanup made.1.1 made.2).2 = files calm
  /\ dirs (cleanup made.1.1 made.2).2 = dirs calm.
Proof.
  intros made.
  assert (Hfr : freshDir (newTempDir calm) calm).
  { split; [reflexivity |]. intros q _. split; [apply lookup_empty | set_solver]. }
  destruct (createFromConfig_cleanup_round_trip bob calm eq_refl Hfr)
    as (H1 & H2 & _).
  split; [vm_compute; reflexivity |]. split; [exact H1 | exact H2].
Defined.

Lemma fsScript_unlinkSync p w : fsScript w = [] -> fsScript (unlinkSync p w).2 = [].
Proof. intros H. now rewrite (unlinkSync_ok _ _ H). Qed.

Lemma rmSync_ok p w :
  fsScript w = [] ->
  (rmSync p w).1 = None /\ fsScript (rmSync p w).2 = []
  /\ (forall q, q ∈ dirs (rmSync p w).2 -> q ∈ dirs w /\ q <> p).
Proof.
  intros H. unfold rmSync, next_fs. rewrite H. simpl.
  split; [reflexivity |]. split; [exact H |].
  intros q Hq. apply elem_of_filter in Hq as [Hq Hin]. split; [exact Hin |].
  intros ->. rewrite String.eqb_refl in Hq. discriminate Hq.
Qed.

Lemma cleanup_when_nothing_fails o w :
  fsScript w = [] ->
  cleanupTempConfig o w = (o, removeTempDir o (removeAuth o (removeConfig o w))).
Proof.
  intros Hs. unfold cleanupTempConfig, removeTempDir, removeAuth, removeConfig.
  destruct (Js.truthyStr (configPath o) && existsSync (configPath o) w).
  - rewrite (unlinkSync_ok _ _ Hs). cbn [snd].
    set (w1 := called _ _).
    assert (Hs1 : fsScript w1 = []) by exact Hs.
    destruct (Js.truthy (authPath o) && existsSync (Js.show (authPath o)) w1).
    + rewrite (unlinkSync_ok _ _ Hs1). cbn [snd].
      set (w2 := called _ _).
      assert (Hs2 : fsScript w2 = []) by exact Hs.
      destruct (Js.truthy (tempDir o) && isTempConfig o
                && existsSync (Js.show (tempDir o)) w2); [| reflexivity].
      destruct (rmSync_ok (Js.show (tempDir o)) w2 Hs2) as (Hr & _).
      destruct (rmSync _ w2) as [e w3]. simpl in *. now subst e.
    + destruct (Js.truthy (tempDir o) && isTempConfig o
                && existsSync (Js.show (tempDir o)) w1); [| reflexivity].
      destruct (rmSync_ok (Js.show (tempDir o)) w1 Hs1) as (Hr & _).
      destruct (rmSync _ w1) as [e w3]. simpl in *. now subst e.
  - destruct (Js.truthy (authPath o) && existsSync (Js.show (authPath o)) w).
    + rewrite (unlinkSync_ok _ _ Hs). cbn [snd].
      set (w2 := called _ _).
      assert (Hs2 : fsScript w2 = []) by exact Hs.
      destruct (Js.truthy (tempDir o) && isTempConfig o
                && existsSync (Js.show (tempDir o)) w2); [| reflexivity].
      destruct (rmSync_ok (Js.show (tempDir o)) w2 Hs2) as (Hr & _).
      destruct (rmSync _ w2) as [e w3]. simpl in *. now subst e.
    + destruct (Js.truthy (tempDir o) && isTempConfig o
                && existsSync (Js.show (tempDir o)) w); [| reflexivity].
      destruct (rmSync_ok (Js.show (tempDir o)) w Hs) as (Hr & _).
      destruct (rmSync _ w) as [e w3]. simpl in *. now subst e.
Qed.

(** A path at which there is neither a file nor a directory. *)
Lemma existsSync_false p w :
  existsSync p w = false <-> files w !! p = None /\ p ∉ dirs w.
Proof.
  unfold existsSync. rewrite orb_false_iff, !bool_decide_eq_false.
  split; intros [H1 H2]; split; try exact H2.
  - destruct (files w !! p); [exfalso; apply H1; eauto | reflexivity].
  - rewrite H1. intros [x Hx]. discriminate Hx.
Qed.

Lemma gone_unlinkSync p q w :
  existsSync p w = false -> existsSync p (unlinkSync q w).2 = false.
Proof.
  rewrite !existsSync_false. intros [H1 H2].
  split; [apply files_unlinkSync_None, H1 | now rewrite dirs_unlinkSync].
Qed.

Lemma gone_rmSync p q w :
  existsSync p w = false -> existsSync p (rmSync q w).2 = false.
Proof.
  rewrite !existsSync_false. intros [H1 H2].
  split; [apply files_rmSync_None, H1 |].
  unfold rmSync, next_fs. destruct (fsScript w) as [|[e|] rest]; simpl; try exact H2;
    intros Hq; apply elem_of_filter in Hq as [_ Hq]; contradiction.
Qed.

Lemma gone_steps o p w :
  existsSync p w = false ->
  existsSync p (removeConfig o w) = false
  /\ existsSync p (removeAuth o w) = false
  /\ existsSync p (removeTempDir o w) = false.
Proof.
  intros H. unfold removeConfig, removeAuth, removeTempDir.
  repeat split; case_match; auto using gone_unlinkSync, gone_rmSync.
Qed.

Lemma unlinked_gone p w :
  fsScript w = [] -> p ∉ dirs w -> existsSync p (unlinkSync p w).2 = false.
Proof.
  intros Hs Hd. rewrite (unlinkSync_ok _ _ Hs). apply existsSync_false.
  simpl. split; [apply lookup_delete_eq | exact Hd].
Qed.

Lemma removed_gone d w :
  fsScript w = [] -> files w !! d = None -> existsSync d (rmSync d w).2 = false.
Proof.
  intros Hs Hf. apply existsSync_false.
  split; [apply files_rmSync_None, Hf |].
  intros Hq. destruct (rmSync_ok d w Hs) as (_ & _ & H).
  destruct (H d Hq) as [_ Hne]. congruence.
Qed.

Lemma steps_frame o w :
  fsScript w = [] ->
  (fsScript (removeConfig o w) = []
   /\ (forall q, q ∈ dirs (removeConfig o w) -> q ∈ dirs w)
   /\ (forall q, files w !! q = None -> files (removeConfig o w) !! q = None))
  /\ (fsScript (removeAuth o w) = []
      /\ (forall q, q ∈ dirs (removeAuth o w) -> q ∈ dirs w)
      /\ (forall q, files w !! q = None -> files (removeAuth o w) !! q = None)).
Proof.
  intros Hs. unfold removeConfig, removeAuth.
  split; case_match; repeat split; auto using fsScript_unlinkSync;
    intros q; rewrite ?dirs_unlinkSync; auto using files_unlinkSync_None.
Qed.

(** X21. [cleanup] is idempotent when no removal fails: after one
    [cleanup] a second one finds nothing to remove, makes no call to the
    file system and leaves the session and the world exactly as they are.
    (The paths of the session are taken to be files, and its temporary
    directory a directory.) *)
Theorem cleanup_idempotent :
  forall (o : OpenVpn) (w : World),
    fsScript w = [] ->
    configPath o ∉ dirs w ->
    (forall p, authPath o = Some p -> p ∉ dirs w) ->
    (forall d, tempDir o = Some d -> files w !! d = None) ->
    (cleanup o w).1 = o
    /\ cleanup o (cleanup o w).2 = (o, (cleanup o w).2).
Proof.
  intros o w Hs Hc Ha Ht. unfold cleanup.
  rewrite (cleanup_when_nothing_fails o w Hs). cbn [fst snd].
  split; [reflexivity |].
  set (w1 := removeConfig o w).
  set (w2 := removeAuth o w1).
  set (w3 := removeTempDir o w2).
  destruct (steps_frame o w Hs) as [(Hs1 & Hd1 & Hf1) _].
  destruct (steps_frame o w1 Hs1) as [_ (Hs2 & Hd2 & Hf2)].
  fold w1 in Hs1, Hd1, Hf1. fold w2 in Hs2, Hd2, Hf2.
  (* the configuration file is gone *)
  assert (G1 : Js.truthyStr (configPath o) && existsSync (configPath o) w3 = false).
  { destruct (Js.truthyStr (configPath o)) eqn:E; [| reflexivity]. simpl.
    apply gone_steps, gone_steps. subst w1. unfold removeConfig. rewrite E. simpl.
    destruct (existsSync (configPath o) w) eqn:Ex; [| exact Ex].
    apply unlinked_gone; assumption. }
  (* the credential file is gone *)
  assert (G2 : Js.truthy (authPath o) && existsSync (Js.show (authPath o)) w3 = false).
  { destruct (Js.truthy (authPath o)) eqn:E; [| reflexivity]. simpl.
    apply gone_steps. subst w2. unfold removeAuth. rewrite E. simpl.
    destruct (existsSync (Js.show (authPath o)) w1) eqn:Ex; [| exact Ex].
    apply unlinked_gone; [exact Hs1 |].
    destruct (authPath o) as [p|]; [| discriminate E].
    intros Hq. exact (Ha p eq_refl (Hd1 _ Hq)). }
  (* the temporary directory is gone *)
  assert (G3 : Js.truthy (tempDir o) && isTempConfig o
               && existsSync (Js.show (tempDir o)) w3 = false).
  { subst w3. unfold removeTempDir.
    destruct (Js.truthy (tempDir o) && isTempConfig o) eqn:E; [| reflexivity].
    simpl. destruct (existsSync (Js.show (tempDir o)) w2) eqn:Ex; [| exact Ex].
    apply removed_gone; [exact Hs2 |].
    destruct (tempDir o) as [d|]; [| discriminate E].
    apply Hf2, Hf1, (Ht d eq_refl). }
  unfold cleanupTempConfig. rewrite G1. cbn iota. rewrite G2. cbn iota.
  rewrite G3. reflexivity.
Qed.

Lemma cleanup_idempotent_witness :
  let made := createFromConfig bob calm in
  let once := cleanup made.1.1 made.2 in
  cleanup made.1.1 once.2 = (made.1.1, once.2).
Proof.
  intros made once.
  refine (proj2 (cleanup_idempotent made.1.1 made.2 eq_refl _ _ _)).
  - vm_compute. set_solver.
  - intros p Hp. vm_compute in Hp. discriminate Hp.
  - intros d Hd. vm_compute in Hd. injection Hd as <-. vm_compute. reflexivity.
Defined.
